(** * esbuild-plugin-pnp: the resolution-decision core

    A shallow embedding of [packages/esbuild-plugin-pnp/sources/index.ts]:
    the external matcher ([parseExternals], [isExternal]), the condition
    sets built in [setup], the resolve hook registered with
    [build.onResolve] and the default classifier [defaultOnResolve].

    Modelling conventions.
    - A JavaScript string is a [string]; a character of the model stands
      for one code unit.  [length], [startsWith], [endsWith], [indexOf] and
      [slice] follow the ECMAScript definitions on code units.
    - [null] and [undefined] are [None]; a JavaScript [Set] of strings is a
      [gset string].
    - The PnP provider is an opaque capability: a record of functions whose
      calls either return or throw.  Every call made through the hook is
      recorded in a log, so that "the provider is not invoked" is a
      statement about the log. *)

From Stdlib Require Import ZArith Ascii.
From stdpp Require Import base strings gmap list.

Local Open Scope Z_scope.

(** ** JavaScript string primitives *)

Module JsString.

(** [s.startsWith(needle)] *)
Fixpoint startsWith (s needle : string) {struct needle} : bool :=
  match needle with
  | EmptyString => true
  | String c needle' =>
      match s with
      | EmptyString => false
      | String d s' => if Ascii.eqb d c then startsWith s' needle' else false
      end
  end.

(** [s.slice(k)] for a natural [k]: the string without its first [k]
    code units. *)
Fixpoint drop (k : nat) (s : string) : string :=
  match k, s with
  | O, _ => s
  | S _, EmptyString => EmptyString
  | S k', String _ s' => drop k' s'
  end.

(** The first [k] code units of [s]. *)
Fixpoint take (k : nat) (s : string) : string :=
  match k, s with
  | O, _ => EmptyString
  | S _, EmptyString => EmptyString
  | S k', String c s' => String c (take k' s')
  end.

(** [s.endsWith(needle)]: with [start = s.length - needle.length], false
    when [start < 0], otherwise the code units of [s] from [start] are
    compared with [needle]. *)
Definition endsWith (s needle : string) : bool :=
  if (String.length needle <=? String.length s)%nat
  then String.eqb (drop (String.length s - String.length needle) s) needle
  else false.

(** [hay.indexOf(needle)], searching from position [pos] of the original
    string: the first position at which [needle] occurs, or [-1]. *)
Fixpoint indexOf_from (pos : nat) (hay needle : string) : Z :=
  if startsWith hay needle then Z.of_nat pos
  else match hay with
       | EmptyString => -1
       | String _ hay' => indexOf_from (S pos) hay' needle
       end.

Definition indexOf (hay needle : string) : Z := indexOf_from 0 hay needle.

(** The clamping of a relative index done by [slice]: a negative index
    counts from the end, and the result is kept within [0 .. len]. *)
Definition clamp (len i : Z) : Z :=
  if i <? 0 then Z.max (len + i) 0 else Z.min i len.

(** [s.slice(start, end)]; [end = None] is an omitted argument. *)
Definition slice (s : string) (start : Z) (end_ : option Z) : string :=
  let len := Z.of_nat (String.length s) in
  let from := clamp len start in
  let to := match end_ with None => len | Some e => clamp len e end in
  let span := Z.max (to - from) 0 in
  take (Z.to_nat span) (drop (Z.to_nat from) s).

(** Truthiness of a string value: every string but the empty one. *)
Definition truthy (s : string) : bool :=
  match s with EmptyString => false | _ => true end.

End JsString.

Import JsString.

(** ** Constants *)

Definition defaultExtensions : list string :=
  [".tsx"; ".ts"; ".jsx"; ".mjs"; ".cjs"; ".js"; ".css"; ".json"].

(** ** ExternalMatcher *)

(** [type External = string | {prefix: string, suffix: string}] *)
Inductive External : Type :=
  | Exact (external : string)
  | Wildcard (prefix suffix : string).

Definition parseExternal (external : string) : External :=
  let wildcardIdx := indexOf external "*" in
  if negb (wildcardIdx =? -1)
  then Wildcard (slice external 0 (Some wildcardIdx))
                (slice external (wildcardIdx + 1) None)
  else Exact external.

Definition parseExternals (externals : list string) : list External :=
  map parseExternal externals.

(** The guard of line 43: the pattern is a bare package name. *)
Definition isBare (external : string) : bool :=
  negb (startsWith external "/") && negb (startsWith external "./")
  && negb (startsWith external "../") && negb (String.eqb external ".")
  && negb (String.eqb external "..").

(** The body of the [for] loop of [isExternal] for one pattern: [true]
    when the loop returns [true] at this pattern. *)
Definition matchesExternal (path : string) (external : External) : bool :=
  match external with
  | Wildcard prefix suffix =>
      (String.length prefix + String.length suffix <=? String.length path)%nat
      && startsWith path prefix && endsWith path suffix
  | Exact external =>
      if String.eqb path external then true
      else if isBare external then startsWith path (external +:+ "/")
      else false
  end.

Fixpoint isExternal (path : string) (externals : list External) : bool :=
  match externals with
  | [] => false
  | external :: rest =>
      if matchesExternal path external then true else isExternal path rest
  end.

(** ** Values exchanged with esbuild and with the PnP provider *)

(** A thrown [Error]; the classifier reads its [message] only.  An object
    is always truthy, so an [error] that is present passes the test
    [error ? ... : ...] of [defaultOnResolve]. *)
Record Error : Type := { message : string }.

(** The completion of a call: it returns a value or throws. *)
Inductive Completion (A : Type) : Type :=
  | Returns (a : A)
  | Throws (e : Error).
Arguments Returns {A} a.
Arguments Throws {A} e.

(** [OnResolveArgs], the fields read by the plugin.  esbuild passes
    [importer] and [resolveDir] as strings, empty when there is none. *)
Record OnResolveArgs : Type := {
  a_path : string;
  a_importer : string;
  a_resolveDir : string;
  a_kind : string;
}.

(** One entry of [errors] or [warnings]: [{text: error.message}]. *)
Record Message : Type := { text : string }.

(** [OnResolveResult], the fields written by the plugin; a field that the
    object literal does not mention is [None].  The first element of
    [watchFiles] is the value of [pnpApi.resolveRequest(`pnpapi`, null)!],
    which the non-null assertion does not check at run time. *)
Record OnResolveResult : Type := {
  r_external : option bool;
  r_namespace : option string;
  r_path : option string;
  r_errors : option (list Message);
  r_warnings : option (list Message);
  r_watchFiles : option (list (option string));
}.

(** [type OnResolveParams] *)
Record OnResolveParams : Type := {
  resolvedPath : option string;
  watchFiles : list (option string);
  error : option Error;
}.

(** The third argument of [pnpApi.resolveRequest]. *)
Record ResolveOptions : Type := {
  conditions : gset string;
  considerBuiltins : bool;
  extensions : list string;
}.

Record PackageLocator : Type := {
  name : option string;
  reference : string;
}.

(** [PackageInformation], the field read by the plugin. *)
Record PackageInformation : Type := { linkType : string }.

(** [PnpApi], the members used by the plugin.  [resolveVirtual] is an
    optional member. *)
Record PnpApi : Type := {
  resolveRequest :
    string -> option string -> option ResolveOptions -> Completion (option string);
  findPackageLocator : string -> Completion (option PackageLocator);
  getPackageInformation : PackageLocator -> Completion (option PackageInformation);
  resolveVirtual : option (string -> Completion (option string));
}.

(** [build.initialOptions], the fields read by [setup]. *)
Record BuildOptions : Type := {
  opt_external : option (list string);
  opt_platform : option string;
  opt_conditions : option (list string);
}.

(** ** Calls to the provider, logged *)

Inductive Call : Type :=
  | CallFindPnpApi (importer : string)
  | CallResolveRequest (request : string) (issuer : option string)
      (opts : option ResolveOptions)
  | CallFindPackageLocator (location : string)
  | CallGetPackageInformation (locator : PackageLocator)
  | CallResolveVirtual (location : string).

(** A computation of the hook: the provider calls it made, in order, and
    how it completed. *)
Definition Eff (A : Type) : Type := (list Call * Completion A)%type.

Definition ret {A} (a : A) : Eff A := ([], Returns a).

Definition bind {A B} (m : Eff A) (k : A -> Eff B) : Eff B :=
  match m with
  | (log, Returns a) => let '(log', r) := k a in (log ++ log', r)
  | (log, Throws e) => (log, Throws e)
  end.

(** [try { m } catch (e) { h e }] *)
Definition try_catch {A} (m : Eff A) (h : Error -> Eff A) : Eff A :=
  match m with
  | (log, Returns a) => (log, Returns a)
  | (log, Throws e) => let '(log', r) := h e in (log ++ log', r)
  end.

(** A provider call: log it, then complete as the provider does. *)
Definition call {A} (c : Call) (r : Completion A) : Eff A := ([c], r).

(** A call to code that is not the provider. *)
Definition lift {A} (r : Completion A) : Eff A := ([], r).

Notation "'let*' x ':=' m 'in' k" := (bind m (fun x => k))
  (at level 10, x pattern, m at level 100, k at level 200).

Definition calls {A} (m : Eff A) : list Call := fst m.
Definition completion {A} (m : Eff A) : Completion A := snd m.

(** ** ResultClassifier: [defaultOnResolve] *)

Definition external_only : OnResolveResult :=
  {| r_external := Some true; r_namespace := None; r_path := None;
     r_errors := None; r_warnings := None; r_watchFiles := None |}.

(** The [switch] on [args.kind]: [true] for the kinds whose problems are
    reported as warnings. *)
Definition downgraded (kind : string) : bool :=
  String.eqb kind "require-call" || String.eqb kind "require-resolve"
  || String.eqb kind "dynamic-import".

Definition defaultOnResolve (args : OnResolveArgs) (params : OnResolveParams)
  : Completion (option OnResolveResult) :=
  let problems :=
    match error params with
    | Some e => [ {| text := message e |} ]
    | None => []
    end in
  match resolvedPath params with
  | Some p =>
      Returns (Some {| r_external := None; r_namespace := Some "pnp";
                       r_path := Some p; r_errors := None; r_warnings := None;
                       r_watchFiles := Some (watchFiles params) |})
  | None =>
      if downgraded (a_kind args)
      then Returns (Some {| r_external := Some true; r_namespace := None;
                            r_path := None; r_errors := None;
                            r_warnings := Some problems;
                            r_watchFiles := Some (watchFiles params) |})
      else Returns (Some {| r_external := Some true; r_namespace := None;
                            r_path := None; r_errors := Some problems;
                            r_warnings := None;
                            r_watchFiles := Some (watchFiles params) |})
  end.

(** ** ConditionSetBuilder and the rest of [setup] *)

(** What [setup] computes once and the resolve hook closes over. *)
Record Setup : Type := {
  externals : list External;
  isPlatformNode : bool;
  conditionsDefault : gset string;
  conditionsImport : gset string;
  conditionsRequire : gset string;
}.

Definition setup (initialOptions : BuildOptions) : Setup :=
  let externals := parseExternals (default [] (opt_external initialOptions)) in
  let platform := default "browser" (opt_platform initialOptions) in
  let isPlatformNode := String.eqb platform "node" in
  let conditionsDefault : gset string :=
    list_to_set (default [] (opt_conditions initialOptions)) in
  let conditionsDefault := conditionsDefault ∪ {["default"]} in
  let conditionsDefault :=
    if String.eqb platform "browser" || String.eqb platform "node"
    then conditionsDefault ∪ {[platform]}
    else conditionsDefault in
  let conditionsImport := conditionsDefault ∪ {["import"]} in
  let conditionsRequire := conditionsDefault ∪ {["require"]} in
  {| externals := externals; isPlatformNode := isPlatformNode;
     conditionsDefault := conditionsDefault;
     conditionsImport := conditionsImport;
     conditionsRequire := conditionsRequire |}.

(** ** ResolutionEngine: the hook given to [build.onResolve] *)

Section Hook.

(** [findPnpApi] of the [module] built-in, present when [setup] registers
    the hook. *)
Variable findPnpApi : string -> Completion (option PnpApi).

(** The plugin options [baseDir], [extensions] and [onResolve]. *)
Variable baseDir : string.
Variable pluginExtensions : list string.
Variable onResolve :
  OnResolveArgs -> OnResolveParams -> Completion (option OnResolveResult).

Variable st : Setup.

Definition selectConditions (kind : string) : gset string :=
  if String.eqb kind "dynamic-import" || String.eqb kind "import-statement"
  then conditionsImport st
  else if String.eqb kind "require-call" || String.eqb kind "require-resolve"
  then conditionsRequire st
  else conditionsDefault st.

Definition effectiveImporter (args : OnResolveArgs) : string :=
  if truthy (a_resolveDir args) then a_resolveDir args +:+ "/"
  else if truthy (a_importer args) then a_importer args
  else baseDir +:+ "/".

(** [pnpApi.resolveVirtual?.(path) ?? path] *)
Definition virtualOrSelf (pnpApi : PnpApi) (path : string) : Eff string :=
  match resolveVirtual pnpApi with
  | None => ret path
  | Some f =>
      let* v := call (CallResolveVirtual path) (f path) in
      ret (default path v)
  end.

(** Lines 174-183: the watch files added for a soft-linked package. *)
Definition softLinkWatch (pnpApi : PnpApi) (path : option string)
    (watchFiles : list (option string)) : Eff (list (option string)) :=
  match path with
  | None => ret watchFiles
  | Some p =>
      if truthy p then
        let* locator := call (CallFindPackageLocator p) (findPackageLocator pnpApi p) in
        match locator with
        | None => ret watchFiles
        | Some locator =>
            let* info := call (CallGetPackageInformation locator)
                      (getPackageInformation pnpApi locator) in
            match info with
            | Some info =>
                if String.eqb (linkType info) "SOFT" then
                  let* v := virtualOrSelf pnpApi p in
                  ret (watchFiles ++ [Some v])
                else ret watchFiles
            | None => ret watchFiles
            end
        end
      else ret watchFiles
  end.

(** Lines 160-183: the parameters handed to [onResolve]. *)
Definition resolveParams (pnpApi : PnpApi) (args : OnResolveArgs)
  : Eff OnResolveParams :=
  let importer := effectiveImporter args in
  let opts := {| conditions := selectConditions (a_kind args);
                 considerBuiltins := isPlatformNode st;
                 extensions := pluginExtensions |} in
  let* (path, error) :=
    try_catch
      (let* p := call (CallResolveRequest (a_path args) (Some importer) (Some opts))
              (resolveRequest pnpApi (a_path args) (Some importer) (Some opts)) in
       ret (p, None))
      (fun e => ret (None, Some e)) in
  let* manifest := call (CallResolveRequest "pnpapi" None None)
                (resolveRequest pnpApi "pnpapi" None None) in
  let* watchFiles := softLinkWatch pnpApi path [manifest] in
  ret {| resolvedPath := path; watchFiles := watchFiles; error := error |}.

(** The hook; [None] is [undefined], the delegation to the next resolver. *)
Definition onResolveHook (args : OnResolveArgs) : Eff (option OnResolveResult) :=
  if isExternal (a_path args) (externals st) then ret (Some external_only)
  else
    let importer := effectiveImporter args in
    let* pnpApi := call (CallFindPnpApi importer) (findPnpApi importer) in
    match pnpApi with
    | None => ret None
    | Some pnpApi =>
        let* params := resolveParams pnpApi args in
        lift (onResolve args params)
    end.

End Hook.

(** ** Vocabulary of the statements

    The words of the specification, stated on strings by decomposition and
    independently of the functions above. *)

(** [s] starts with [p]; [s] ends with [p]. *)
Definition starts_with (s p : string) : Prop := ∃ t, s = p +:+ t.
Definition ends_with (s p : string) : Prop := ∃ t, s = t +:+ p.

(** A string has a ["*"] when it splits around one. *)
Definition has_star (s : string) : Prop := ∃ a b, s = a +:+ "*" +:+ b.

(** A bare package name: it does not start with ["/"], ["./"] or ["../"]
    and is neither ["."] nor [".."]. *)
Definition bare_package_name (external : string) : Prop :=
  ¬ starts_with external "/" ∧ ¬ starts_with external "./"
  ∧ ¬ starts_with external "../" ∧ external ≠ "." ∧ external ≠ "..".

(** ** Vocabulary of the engine statements *)

Section EngineVocabulary.

Variable baseDir : string.
Variable pluginExtensions : list string.
Variable st : Setup.

(** The options of the resolution call of line 163. *)
Definition requestOptions (args : OnResolveArgs) : ResolveOptions :=
  {| conditions := selectConditions st (a_kind args);
     considerBuiltins := isPlatformNode st;
     extensions := pluginExtensions |}.

(** The two [resolveRequest] calls of the hook. *)
Definition mainCall (args : OnResolveArgs) : Call :=
  CallResolveRequest (a_path args) (Some (effectiveImporter baseDir args))
    (Some (requestOptions args)).

Definition mainResolution (pnpApi : PnpApi) (args : OnResolveArgs)
  : Completion (option string) :=
  resolveRequest pnpApi (a_path args) (Some (effectiveImporter baseDir args))
    (Some (requestOptions args)).

Definition manifestCall : Call := CallResolveRequest "pnpapi" None None.

Definition manifestResolution (pnpApi : PnpApi) : Completion (option string) :=
  resolveRequest pnpApi "pnpapi" None None.

(** What the [try]/[catch] of lines 160-170 leaves in [path] and [error]. *)
Definition captured (r : Completion (option string))
  : option string * option Error :=
  match r with
  | Returns p => (p, None)
  | Throws e => (None, Some e)
  end.

End EngineVocabulary.

(** The virtual resolution of a path: [pnpApi.resolveVirtual?.(path)]. *)
Definition virtualResolution (pnpApi : PnpApi) (p : string)
  : Completion (option string) :=
  match resolveVirtual pnpApi with
  | None => Returns None
  | Some f => f p
  end.

Definition virtualCalls (pnpApi : PnpApi) (p : string) : list Call :=
  match resolveVirtual pnpApi with
  | None => []
  | Some _ => [CallResolveVirtual p]
  end.

(** A package lookup made for the resolved path [p] throws [e]: the
    locator lookup, or the information lookup for the locator found, or the
    virtual resolution made for a [SOFT] package. *)
Definition lookupThrows (pnpApi : PnpApi) (p : string) (e : Error) : Prop :=
  truthy p = true
  ∧ (findPackageLocator pnpApi p = Throws e
     ∨ ∃ locator,
         findPackageLocator pnpApi p = Returns (Some locator)
         ∧ (getPackageInformation pnpApi locator = Throws e
            ∨ ∃ info,
                getPackageInformation pnpApi locator = Returns (Some info)
                ∧ linkType info = "SOFT"
                ∧ virtualResolution pnpApi p = Throws e)).

(** The parameters of [onResolve] carry exactly one of a resolved path and
    an error. *)
Definition exactly_one_set (params : OnResolveParams) : Prop :=
  (is_Some (resolvedPath params) ∧ error params = None)
  ∨ (resolvedPath params = None ∧ is_Some (error params)).

(** The kinds whose failures are downgraded to warnings. *)
Definition guarded_kind (kind : string) : Prop :=
  kind = "require-call" ∨ kind = "require-resolve" ∨ kind = "dynamic-import".

(** ** A concrete project

    A provider for a project installed under ["/project/"]: ["fs"] is a
    built-in (resolved to [null]), ["./util"] belongs to a hard-linked
    package of the store, ["linked"] to a soft-linked package reached
    through a virtual path, and every other request fails. *)

Module Scenario.

Definition manifest : string := "/project/.pnp.cjs".

Definition pkgA : PackageLocator :=
  {| name := Some "pkgA"; reference := "npm:1.0.0" |}.
Definition linked : PackageLocator :=
  {| name := Some "linked"; reference := "virtual:abc#portal:../linked" |}.

Definition notFound (request : string) : Error :=
  {| message := "Your application tried to access " +:+ request |}.

Definition api : PnpApi :=
  {| resolveRequest := λ request _ _,
       if String.eqb request "pnpapi" then Returns (Some manifest)
       else if String.eqb request "fs" then Returns None
       else if String.eqb request "./util" then Returns (Some "/store/pkgA/util.js")
       else if String.eqb request "linked"
       then Returns (Some "/project/__virtual__/linked/index.js")
       else Throws (notFound request);
     findPackageLocator := λ location,
       if startsWith location "/store/pkgA/" then Returns (Some pkgA)
       else if startsWith location "/project/__virtual__/linked/"
       then Returns (Some linked)
       else Returns None;
     getPackageInformation := λ locator,
       if bool_decide (name locator = Some "linked")
       then Returns (Some {| linkType := "SOFT" |})
       else Returns (Some {| linkType := "HARD" |});
     resolveVirtual := Some (λ location,
       if startsWith location "/project/__virtual__/"
       then Returns (Some "/workspace/linked/index.js")
       else Returns None) |}.

Definition findPnpApi (importer : string) : Completion (option PnpApi) :=
  if startsWith importer "/project/" then Returns (Some api) else Returns None.

Definition options : BuildOptions :=
  {| opt_external := Some ["left-*"]; opt_platform := Some "node";
     opt_conditions := None |}.

Definition request (specifier kind : string) : OnResolveArgs :=
  {| a_path := specifier; a_importer := "/project/src/index.js";
     a_resolveDir := "/project/src"; a_kind := kind |}.

(** The same request made from a directory that the provider does not own. *)
Definition foreign (specifier kind : string) : OnResolveArgs :=
  {| a_path := specifier; a_importer := "/elsewhere/index.js";
     a_resolveDir := "/elsewhere"; a_kind := kind |}.

(** The hook of the plugin with its default options, for a classifier. *)
Definition hook
    (onResolve : OnResolveArgs -> OnResolveParams -> Completion (option OnResolveResult))
    (args : OnResolveArgs) : Eff (option OnResolveResult) :=
  onResolveHook findPnpApi "/project" defaultExtensions onResolve (setup options) args.

End Scenario.

(** ** Vocabulary of the further statements *)

(** The raw external that a compiled pattern stands for. *)
Definition rawOf (pattern : External) : string :=
  match pattern with
  | Exact external => external
  | Wildcard prefix suffix => prefix +:+ "*" +:+ suffix
  end.

(** The kinds resolved with the import and with the require conditions
    (lines 143-146). *)
Definition import_kind (kind : string) : Prop :=
  kind = "dynamic-import" ∨ kind = "import-statement".
Definition require_kind (kind : string) : Prop :=
  kind = "require-call" ∨ kind = "require-resolve".

(** The provider calls that compute the watch files of a resolved path. *)
Definition lookupCalls (p : string) (locator : PackageLocator) : list Call :=
  [CallFindPackageLocator p; CallGetPackageInformation locator;
   CallResolveVirtual p].

(** ** A project whose provider fails

    The provider owns ["/broken/"]; it resolves ["./ok"] but cannot
    resolve its own manifest.  A second provider resolves both but fails
    to locate the package of a path.  Outside ["/broken/"] and
    ["/partial/"] the lookup of the provider itself throws. *)

Module Failing.

Definition noManifest : Error := {| message := "pnpapi is not resolvable" |}.
Definition noLocator : Error := {| message := "locator lookup failed" |}.
Definition noApi : Error := {| message := "no PnP runtime" |}.

Definition broken : PnpApi :=
  {| resolveRequest := λ request _ _,
       if String.eqb request "./ok" then Returns (Some "/broken/ok.js")
       else Throws noManifest;
     findPackageLocator := λ _, Returns None;
     getPackageInformation := λ _, Returns None;
     resolveVirtual := None |}.

Definition partial : PnpApi :=
  {| resolveRequest := λ request _ _,
       if String.eqb request "pnpapi" then Returns (Some "/partial/.pnp.cjs")
       else Returns (Some "/partial/ok.js");
     findPackageLocator := λ _, Throws noLocator;
     getPackageInformation := λ _, Returns None;
     resolveVirtual := None |}.

Definition findPnpApi (importer : string) : Completion (option PnpApi) :=
  if startsWith importer "/broken/" then Returns (Some broken)
  else if startsWith importer "/partial/" then Returns (Some partial)
  else Throws noApi.

Definition options : BuildOptions :=
  {| opt_external := None; opt_platform := None; opt_conditions := Some ["worker"] |}.

Definition request (dir specifier kind : string) : OnResolveArgs :=
  {| a_path := specifier; a_importer := ""; a_resolveDir := dir; a_kind := kind |}.

Definition hook
    (onResolve : OnResolveArgs -> OnResolveParams -> Completion (option OnResolveResult))
    (args : OnResolveArgs) : Eff (option OnResolveResult) :=
  onResolveHook findPnpApi "/cwd" defaultExtensions onResolve (setup options) args.

End Failing.

(** * Properties *)

(** ** Strings *)

#[local] Arguments String.append !_ _ / : simpl nomatch.

Section StringFacts.

Implicit Types s t needle : string.

Lemma append_empty_r s : s +:+ "" = s.
Proof. induction s as [|c s IH]; simpl; [done | by f_equal]. Qed.

Lemma append_assoc s t u : (s +:+ t) +:+ u = s +:+ (t +:+ u).
Proof. induction s as [|c s IH]; simpl; [done | by f_equal]. Qed.

Lemma length_append s t :
  String.length (s +:+ t) = (String.length s + String.length t)%nat.
Proof. induction s as [|c s IH]; simpl; [done | by f_equal]. Qed.

Lemma append_inv_head s t u : s +:+ t = s +:+ u → t = u.
Proof. induction s as [|c s IH]; simpl; [done | intros [= H]; auto]. Qed.

Lemma startsWith_append s t : startsWith (s +:+ t) s = true.
Proof.
  induction s as [|c s IH]; simpl; [done |].
  by rewrite Ascii.eqb_refl.
Qed.

Lemma startsWith_spec s needle :
  startsWith s needle = true ↔ starts_with s needle.
Proof.
  unfold starts_with. split.
  - revert s. induction needle as [|c needle IH]; intros s H.
    + by exists s.
    + destruct s as [|d s]; simpl in H; [done |].
      destruct (Ascii.eqb_spec d c) as [->|]; [| done].
      destruct (IH _ H) as [t ->]. by exists t.
  - intros [t ->]. apply startsWith_append.
Qed.

Lemma drop_append s t : drop (String.length s) (s +:+ t) = t.
Proof. induction s as [|c s IH]; simpl; [by destruct t | done]. Qed.

Lemma take_append s t : take (String.length s) (s +:+ t) = s.
Proof. induction s as [|c s IH]; simpl; [by destruct t | by f_equal]. Qed.

Lemma take_all s : take (String.length s) s = s.
Proof. induction s as [|c s IH]; simpl; [done | by f_equal]. Qed.

Lemma take_drop s k : take k s +:+ drop k s = s.
Proof.
  revert s. induction k as [|k IH]; intros [|c s]; simpl; try done.
  by f_equal.
Qed.

Lemma length_drop s k : String.length (drop k s) = (String.length s - k)%nat.
Proof.
  revert s. induction k as [|k IH]; intros [|c s]; simpl; try done.
Qed.

Lemma endsWith_spec s needle :
  endsWith s needle = true ↔ ends_with s needle.
Proof.
  unfold endsWith, ends_with. split.
  - destruct (Nat.leb_spec (String.length needle) (String.length s)) as [Hle|];
      [| done].
    intros H%String.eqb_eq.
    exists (take (String.length s - String.length needle) s).
    symmetry. etrans; [| apply (take_drop s (String.length s - String.length needle))].
    by rewrite H.
  - intros [t ->]. rewrite length_append.
    destruct (Nat.leb_spec (String.length needle)
                (String.length t + String.length needle)) as [Hle|]; [| lia].
    replace (String.length t + String.length needle - String.length needle)%nat
      with (String.length t) by lia.
    rewrite drop_append. apply String.eqb_refl.
Qed.

Lemma has_star_cons c s : has_star (String c s) ↔ c = "*"%char ∨ has_star s.
Proof.
  split.
  - intros [[|d a] [b H]]; simpl in H; injection H as -> ->.
    + by left.
    + right. by exists a, b.
  - intros [-> | [a [b ->]]].
    + by exists "", s.
    + by exists (String c a), b.
Qed.

Lemma has_star_empty : ¬ has_star "".
Proof. intros [[|d a] [b H]]; discriminate H. Qed.

(** [indexOf] finds the first ["*"]: either there is none and the result is
    [-1], or the string splits at it and the result is its position. *)
Lemma indexOf_from_star s pos :
  (¬ has_star s ∧ indexOf_from pos s "*" = -1)
  ∨ (∃ a b, s = a +:+ "*" +:+ b ∧ ¬ has_star a
            ∧ indexOf_from pos s "*" = Z.of_nat (pos + String.length a)).
Proof.
  revert pos. induction s as [|c s IH]; intros pos.
  - left. split; [apply has_star_empty | done].
  - simpl. destruct (Ascii.eqb_spec c "*") as [->|Hc].
    + right. exists "", s. split; [done |]. split; [apply has_star_empty |].
      simpl. f_equal. lia.
    + destruct (IH (S pos)) as [[Hn Hi] | (a & b & -> & Hn & Hi)].
      * left. split; [| done]. rewrite has_star_cons. tauto.
      * right. exists (String c a), b. split; [done |].
        split; [rewrite has_star_cons; tauto |].
        rewrite Hi. simpl. f_equal. lia.
Qed.

Lemma slice_prefix a b :
  slice (a +:+ b) 0 (Some (Z.of_nat (String.length a))) = a.
Proof.
  unfold slice, clamp. rewrite length_append. simpl.
  destruct (Z.ltb_spec (Z.of_nat (String.length a)) 0); [lia |].
  match goal with
  | |- take ?n (drop ?m _) = _ =>
      replace n with (String.length a) by lia; replace m with 0%nat by lia
  end.
  apply take_append.
Qed.

Lemma slice_suffix a c b :
  slice (a +:+ String c b) (Z.of_nat (String.length a) + 1) None = b.
Proof.
  unfold slice, clamp. rewrite length_append. simpl.
  destruct (Z.ltb_spec (Z.of_nat (String.length a) + 1) 0); [lia |].
  match goal with
  | |- take ?n (drop ?m _) = _ =>
      replace n with (String.length b) by lia;
      replace m with (String.length (a +:+ String c "")) 
        by (rewrite length_append; simpl; lia)
  end.
  replace (a +:+ String c b) with ((a +:+ String c "") +:+ b)
    by (by rewrite append_assoc).
  rewrite drop_append. apply take_all.
Qed.

End StringFacts.

(** ** ExternalMatcher *)

Section ExternalMatcher.

Implicit Types path external prefix suffix : string.

Lemma startsWith_false s needle :
  startsWith s needle = false ↔ ¬ starts_with s needle.
Proof.
  rewrite <- startsWith_spec. destruct (startsWith s needle); naive_solver.
Qed.

Lemma isBare_spec external :
  isBare external = true ↔ bare_package_name external.
Proof.
  unfold isBare, bare_package_name.
  rewrite !andb_true_iff, !negb_true_iff, !startsWith_false, !String.eqb_neq.
  tauto.
Qed.

(** The loop of [isExternal] answers [true] exactly when one of the
    patterns matches. *)
Lemma isExternal_exists path (externals : list External) :
  isExternal path externals = true
  ↔ ∃ pattern, pattern ∈ externals ∧ matchesExternal path pattern = true.
Proof.
  induction externals as [|e rest IH]; simpl.
  - split; [done | intros (? & []%elem_of_nil & _)].
  - destruct (matchesExternal path e) eqn:He.
    + split; [| done]. intros _. exists e. split; [left | done].
    + rewrite IH. split.
      * intros (x & Hx & Hm). exists x. split; [by right | done].
      * intros (x & Hx & Hm). apply elem_of_cons in Hx as [-> | Hx];
          [congruence | by exists x].
Qed.

Lemma matchesExternal_exact path external :
  matchesExternal path (Exact external) = true
  ↔ path = external
    ∨ (bare_package_name external ∧ starts_with path (external +:+ "/")).
Proof.
  simpl. destruct (String.eqb_spec path external) as [->|Hne].
  - split; [by left | done].
  - rewrite <- isBare_spec, <- startsWith_spec.
    destruct (isBare external); intuition congruence.
Qed.

Lemma matchesExternal_wildcard path prefix suffix :
  matchesExternal path (Wildcard prefix suffix) = true
  ↔ (String.length prefix + String.length suffix ≤ String.length path)%nat
    ∧ starts_with path prefix ∧ ends_with path suffix.
Proof.
  simpl. rewrite !andb_true_iff, Nat.leb_le, startsWith_spec, endsWith_spec.
  tauto.
Qed.

Lemma isExternal_singleton path (pattern : External) :
  isExternal path [pattern] = matchesExternal path pattern.
Proof. simpl. by destruct (matchesExternal path pattern). Qed.

(** A raw external without ["*"] is kept as an exact pattern; one with a
    ["*"] is cut at the first one. *)
Lemma parseExternal_exact external :
  ¬ has_star external → parseExternal external = Exact external.
Proof.
  intros Hn. unfold parseExternal, indexOf.
  destruct (indexOf_from_star external 0) as [[_ ->] | (a & b & -> & _ & _)].
  - done.
  - destruct Hn. by exists a, b.
Qed.

Lemma parseExternal_wildcard prefix suffix :
  ¬ has_star prefix →
  parseExternal (prefix +:+ "*" +:+ suffix) = Wildcard prefix suffix.
Proof.
  intros Hn. unfold parseExternal, indexOf.
  destruct (indexOf_from_star (prefix +:+ "*" +:+ suffix) 0)
    as [[Hs _] | (a & b & Heq & Ha & ->)].
  - destruct Hs. by exists prefix, suffix.
  - assert (a = prefix ∧ b = suffix) as [-> ->].
    { clear -Heq Hn Ha. revert a Heq Ha.
      induction prefix as [|c p IH]; intros [|d a] Heq Ha; simpl in Heq.
      - by injection Heq as ->.
      - injection Heq as <- _. destruct Ha. by exists "", a.
      - injection Heq as -> _. destruct Hn. by exists "", p.
      - injection Heq as -> Heq.
        destruct (IH (λ H, Hn (proj2 (has_star_cons _ _) (or_intror H)))
                    a Heq (λ H, Ha (proj2 (has_star_cons _ _) (or_intror H))))
          as [-> ->].
        done. }
    change (0 + String.length prefix)%nat with (String.length prefix).
    destruct (Z.eqb_spec (Z.of_nat (String.length prefix)) (-1)); [lia |].
    change (prefix +:+ "*" +:+ suffix) with (prefix +:+ String "*" suffix).
    simpl negb. cbv iota.
    by rewrite slice_prefix, slice_suffix.
Qed.

End ExternalMatcher.

Section ExternalMatcherClaims.

Lemma no_star_by_indexOf (s : string) : indexOf s "*" = -1 → ¬ has_star s.
Proof.
  unfold indexOf. intros Hi.
  destruct (indexOf_from_star s 0) as [[Hn _] | (a & b & _ & _ & Hp)]; [done |].
  rewrite Hp in Hi. lia.
Qed.

Lemma has_star_split (s : string) :
  has_star s → ∃ a b, s = a +:+ "*" +:+ b ∧ ¬ has_star a.
Proof.
  intros Hs. destruct (indexOf_from_star s 0) as [[Hn _] | (a & b & -> & Ha & _)].
  - done.
  - by exists a, b.
Qed.

(** C8. For an exact (non-wildcard) pattern, [isExternal] answers [true]
    iff the candidate equals the pattern, or the pattern is a bare package
    name and the candidate starts with the pattern followed by ["/"].  A raw
    external without ["*"] compiles to such a pattern.  In particular, for
    a bare package name, the name followed by ["/sub/path"] matches and the
    name followed by ["other"] does not. *)
Theorem exact_pattern_match (path external : string) :
  (isExternal path [Exact external] = true
   ↔ path = external
     ∨ (bare_package_name external ∧ starts_with path (external +:+ "/")))
  ∧ (¬ has_star external → parseExternals [external] = [Exact external])
  ∧ (bare_package_name external →
     isExternal (external +:+ "/sub/path") [Exact external] = true
     ∧ isExternal (external +:+ "other") [Exact external] = false).
Proof.
  split; [| split].
  - rewrite isExternal_singleton. apply matchesExternal_exact.
  - intros Hn. cbv [parseExternals map]. by rewrite parseExternal_exact.
  - intros Hb. rewrite !isExternal_singleton. split.
    + apply matchesExternal_exact. right. split; [done |].
      exists "sub/path". by rewrite append_assoc.
    + apply not_true_is_false. rewrite matchesExternal_exact.
      intros [Heq | [_ [t Ht]]].
      * apply (f_equal String.length) in Heq. rewrite length_append in Heq.
        simpl in Heq. lia.
      * rewrite append_assoc in Ht. by apply append_inv_head in Ht.
Qed.

Lemma exact_pattern_match_witness :
  parseExternals ["left-pad"] = [Exact "left-pad"]
  ∧ isExternal ("left-pad" +:+ "/sub/path") [Exact "left-pad"] = true
  ∧ isExternal ("left-pad" +:+ "other") [Exact "left-pad"] = false.
Proof.
  destruct (exact_pattern_match "left-pad/index.js" "left-pad") as (_ & Hp & Hb).
  split.
  - apply Hp, no_star_by_indexOf. reflexivity.
  - apply Hb, isBare_spec. reflexivity.
Defined.

(** C9. A raw external with a ["*"] compiles to the wildcard pattern whose
    prefix and suffix are the parts before and after its first ["*"], and
    a candidate matches it iff its length is at least the length of the
    prefix plus the length of the suffix, it starts with the prefix and it
    ends with the suffix.  For ["a*z"]: ["abz"] and ["az"] match, ["a"]
    does not. *)
Theorem wildcard_pattern_match (raw : string) :
  (has_star raw →
   ∃ prefix suffix,
     raw = prefix +:+ "*" +:+ suffix ∧ ¬ has_star prefix
     ∧ parseExternals [raw] = [Wildcard prefix suffix]
     ∧ ∀ path,
         isExternal path (parseExternals [raw]) = true
         ↔ (String.length prefix + String.length suffix ≤ String.length path)%nat
           ∧ starts_with path prefix ∧ ends_with path suffix)
  ∧ isExternal "abz" (parseExternals ["a*z"]) = true
  ∧ isExternal "az" (parseExternals ["a*z"]) = true
  ∧ isExternal "a" (parseExternals ["a*z"]) = false.
Proof.
  split; [| done].
  intros (prefix & suffix & -> & Hn)%has_star_split.
  exists prefix, suffix. split; [done |]. split; [done |].
  assert (parseExternals [prefix +:+ "*" +:+ suffix] = [Wildcard prefix suffix])
    as -> by (cbv [parseExternals map]; by rewrite parseExternal_wildcard).
  split; [done |]. intros path.
  rewrite isExternal_singleton. apply matchesExternal_wildcard.
Qed.

Lemma wildcard_pattern_match_witness :
  ∃ prefix suffix,
    "a*z" = prefix +:+ "*" +:+ suffix ∧ ¬ has_star prefix
    ∧ parseExternals ["a*z"] = [Wildcard prefix suffix]
    ∧ ∀ path,
        isExternal path (parseExternals ["a*z"]) = true
        ↔ (String.length prefix + String.length suffix ≤ String.length path)%nat
          ∧ starts_with path prefix ∧ ends_with path suffix.
Proof.
  apply (proj1 (wildcard_pattern_match "a*z")).
  exists "a", "z". reflexivity.
Defined.

End ExternalMatcherClaims.

(** ** ConditionSetBuilder *)

Section ConditionSets.

Variable initialOptions : BuildOptions.

(** The user conditions and the platform as [setup] reads them. *)
Local Abbreviation user := (default [] (opt_conditions initialOptions)).
Local Abbreviation platform := (default "browser" (opt_platform initialOptions)).
Local Abbreviation st := (setup initialOptions).

Lemma elem_of_conditionsDefault (x : string) :
  x ∈ conditionsDefault st
  ↔ x ∈ user ∨ x = "default"
    ∨ (x = platform ∧ (platform = "browser" ∨ platform = "node")).
Proof.
  unfold setup. simpl.
  destruct (String.eqb_spec (default "browser" (opt_platform initialOptions))
              "browser") as [Hb|Hb];
    destruct (String.eqb_spec (default "browser" (opt_platform initialOptions))
                "node") as [Hn|Hn]; simpl;
    rewrite ?elem_of_union, elem_of_list_to_set, ?elem_of_singleton;
    intuition congruence.
Qed.

Lemma conditionsImport_eq : conditionsImport st = conditionsDefault st ∪ {["import"]}.
Proof. done. Qed.

Lemma conditionsRequire_eq : conditionsRequire st = conditionsDefault st ∪ {["require"]}.
Proof. done. Qed.

Lemma import_in_default : "import" ∈ conditionsDefault st ↔ "import" ∈ user.
Proof.
  rewrite elem_of_conditionsDefault. split; [| tauto].
  intros [H | [H | [H [Hp | Hp]]]]; [done | done | |]; congruence.
Qed.

Lemma require_in_default : "require" ∈ conditionsDefault st ↔ "require" ∈ user.
Proof.
  rewrite elem_of_conditionsDefault. split; [| tauto].
  intros [H | [H | [H [Hp | Hp]]]]; [done | done | |]; congruence.
Qed.

End ConditionSets.

(** ** ResolutionEngine *)

Lemma downgraded_spec (kind : string) : downgraded kind = true ↔ guarded_kind kind.
Proof.
  unfold downgraded, guarded_kind. rewrite !orb_true_iff, !String.eqb_eq. tauto.
Qed.

Lemma downgraded_false (kind : string) :
  downgraded kind = false ↔ ¬ guarded_kind kind.
Proof.
  rewrite <- downgraded_spec. destruct (downgraded kind); intuition congruence.
Qed.

Section Engine.

Variable findPnpApi : string -> Completion (option PnpApi).
Variable baseDir : string.
Variable pluginExtensions : list string.
Variable st : Setup.

Local Abbreviation main_call := (mainCall baseDir pluginExtensions st).
Local Abbreviation main_resolution := (mainResolution baseDir pluginExtensions st).

Lemma resolveParams_unfold (pnpApi : PnpApi) (args : OnResolveArgs) :
  resolveParams baseDir pluginExtensions st pnpApi args
  = match manifestResolution pnpApi with
    | Throws e => ([main_call args; manifestCall], Throws e)
    | Returns m =>
        let '(path, error) := captured (main_resolution pnpApi args) in
        match softLinkWatch pnpApi path [m] with
        | (log, Returns w) =>
            (main_call args :: manifestCall :: log,
             Returns {| resolvedPath := path; watchFiles := w; error := error |})
        | (log, Throws e) => (main_call args :: manifestCall :: log, Throws e)
        end
    end.
Proof.
  unfold resolveParams, manifestResolution, mainResolution,
    mainCall, manifestCall, requestOptions, captured, bind,
    try_catch, call, ret.
  destruct (resolveRequest pnpApi (a_path args) _ _) as [p|e];
    destruct (resolveRequest pnpApi "pnpapi" None None) as [m|e']; simpl; try done.
  destruct (softLinkWatch pnpApi p [m]) as [log [w|e']]; simpl; [| done].
  by rewrite app_nil_r.
Qed.

Lemma softLinkWatch_extends (pnpApi : PnpApi) (path : option string)
    (w w' : list (option string)) :
  completion (softLinkWatch pnpApi path w) = Returns w' →
  w' = w ∨ ∃ p v, path = Some p ∧ w' = w ++ [Some v].
Proof.
  unfold softLinkWatch, virtualOrSelf, completion, bind, call, ret.
  destruct path as [p|]; [| intros [= <-]; by left].
  destruct (truthy p); [| intros [= <-]; by left].
  destruct (findPackageLocator pnpApi p) as [[loc|]|e]; simpl;
    [| intros [= <-]; by left | done].
  destruct (getPackageInformation pnpApi loc) as [[info|]|e]; simpl;
    [| intros [= <-]; by left | done].
  destruct (String.eqb (linkType info) "SOFT"); [| intros [= <-]; by left].
  destruct (resolveVirtual pnpApi) as [f|]; simpl.
  - destruct (f p) as [v|e]; simpl; [| done].
    intros [= <-]. right. by exists p, (default p v).
  - intros [= <-]. right. by exists p, p.
Qed.

Lemma softLinkWatch_soft (pnpApi : PnpApi) (p : string) (w : list (option string))
    (locator : PackageLocator) (info : PackageInformation) (v : option string) :
  truthy p = true →
  findPackageLocator pnpApi p = Returns (Some locator) →
  getPackageInformation pnpApi locator = Returns (Some info) →
  linkType info = "SOFT" →
  virtualResolution pnpApi p = Returns v →
  softLinkWatch pnpApi (Some p) w
  = (CallFindPackageLocator p :: CallGetPackageInformation locator
       :: virtualCalls pnpApi p,
     Returns (w ++ [Some (default p v)])).
Proof.
  intros Ht Hl Hi Hs Hv.
  unfold softLinkWatch, virtualOrSelf, virtualResolution, virtualCalls in *.
  rewrite Ht, Hl. unfold bind, call, ret. rewrite Hi, Hs. simpl.
  destruct (resolveVirtual pnpApi) as [f|]; simpl.
  - by rewrite Hv.
  - by injection Hv as <-.
Qed.

(** The watch file computation throws only when a package lookup made
    for a resolved path throws. *)
Lemma softLinkWatch_throws (pnpApi : PnpApi) (path : option string)
    (w : list (option string)) (e : Error) :
  completion (softLinkWatch pnpApi path w) = Throws e →
  ∃ p, path = Some p ∧ lookupThrows pnpApi p e.
Proof.
  unfold softLinkWatch, virtualOrSelf, lookupThrows, virtualResolution,
    completion, bind, call, ret.
  destruct path as [p|]; simpl; [| by intros [=]].
  destruct (truthy p) eqn:Ht; simpl; [| by intros [=]].
  intros H. exists p. split; [done |]. split; [done |].
  destruct (findPackageLocator pnpApi p) as [[loc|]|e']; simpl in H;
    [| done | injection H as ->; by left].
  right. exists loc. split; [done |].
  destruct (getPackageInformation pnpApi loc) as [[info|]|e']; simpl in H;
    [| done | injection H as ->; by left].
  right. exists info. split; [done |].
  destruct (String.eqb_spec (linkType info) "SOFT") as [Hs|]; simpl in H;
    [| done].
  split; [done |].
  destruct (resolveVirtual pnpApi) as [f|]; simpl in H; [| done].
  destruct (f p); simpl in H; [done | by injection H as ->].
Qed.

Section Classifier.

Variable onResolve :
  OnResolveArgs -> OnResolveParams -> Completion (option OnResolveResult).

Local Abbreviation the_hook :=
  (onResolveHook findPnpApi baseDir pluginExtensions onResolve st).

Lemma onResolveHook_external (args : OnResolveArgs) :
  isExternal (a_path args) (externals st) = true →
  the_hook args = ([], Returns (Some external_only)).
Proof. intros He. unfold onResolveHook. by rewrite He. Qed.

Lemma onResolveHook_delegate (args : OnResolveArgs) :
  isExternal (a_path args) (externals st) = false →
  findPnpApi (effectiveImporter baseDir args) = Returns None →
  the_hook args = ([CallFindPnpApi (effectiveImporter baseDir args)], Returns None).
Proof.
  intros He Hf. unfold onResolveHook, bind, call, ret. by rewrite He, Hf.
Qed.

Lemma onResolveHook_resolve (args : OnResolveArgs) (pnpApi : PnpApi) :
  isExternal (a_path args) (externals st) = false →
  findPnpApi (effectiveImporter baseDir args) = Returns (Some pnpApi) →
  the_hook args
  = match resolveParams baseDir pluginExtensions st pnpApi args with
    | (log, Returns params) =>
        (CallFindPnpApi (effectiveImporter baseDir args) :: log,
         onResolve args params)
    | (log, Throws e) =>
        (CallFindPnpApi (effectiveImporter baseDir args) :: log, Throws e)
    end.
Proof.
  intros He Hf. unfold onResolveHook, bind, call, lift. rewrite He, Hf.
  destruct (resolveParams _ _ _ _ _) as [log [params|e]]; simpl; [| done].
  by rewrite app_nil_r.
Qed.

End Classifier.

(** Past the external check and the provider lookup, the hook either
    fails with an error of the provider, whatever the classifier, or
    completes as the classifier does on parameters that do not depend on
    the classifier. *)
Lemma onResolveHook_outcome (args : OnResolveArgs) (pnpApi : PnpApi) :
  isExternal (a_path args) (externals st) = false →
  findPnpApi (effectiveImporter baseDir args) = Returns (Some pnpApi) →
  (∃ e,
     completion (resolveParams baseDir pluginExtensions st pnpApi args) = Throws e
     ∧ ∀ onResolve,
         completion (onResolveHook findPnpApi baseDir pluginExtensions onResolve
                       st args) = Throws e)
  ∨ (∃ params,
       completion (resolveParams baseDir pluginExtensions st pnpApi args)
       = Returns params
       ∧ ∀ onResolve,
           completion (onResolveHook findPnpApi baseDir pluginExtensions
                         onResolve st args) = onResolve args params).
Proof.
  intros He Hf.
  destruct (resolveParams baseDir pluginExtensions st pnpApi args)
    as [log [params|e]] eqn:Hr.
  - right. exists params. split; [done |]. intros onResolve.
    by rewrite (onResolveHook_resolve onResolve args pnpApi He Hf), Hr.
  - left. exists e. split; [done |]. intros onResolve.
    by rewrite (onResolveHook_resolve onResolve args pnpApi He Hf), Hr.
Qed.

(** The path and the error of the parameters are what the [try]/[catch]
    captured. *)
Lemma resolveParams_captured (args : OnResolveArgs) (pnpApi : PnpApi)
    (params : OnResolveParams) :
  completion (resolveParams baseDir pluginExtensions st pnpApi args)
  = Returns params →
  (resolvedPath params, error params) = captured (main_resolution pnpApi args)
  ∧ ∃ m, manifestResolution pnpApi = Returns m
         ∧ completion (softLinkWatch pnpApi (resolvedPath params) [m])
           = Returns (watchFiles params).
Proof.
  rewrite resolveParams_unfold.
  destruct (manifestResolution pnpApi) as [m|e]; [| done].
  destruct (captured (main_resolution pnpApi args)) as [path err].
  destruct (softLinkWatch pnpApi path [m]) as [log [w|e]] eqn:Hw; [| done].
  intros [= <-]. simpl. split; [done |]. exists m. by rewrite Hw.
Qed.


End Engine.

(** ** ResultClassifier *)

(** C1. When the parameters carry an error and no resolved path,
    [defaultOnResolve] returns a result with [external: true] and the
    accumulated watch files, whose diagnostics depend on the kind only: for
    [require-call], [require-resolve] and [dynamic-import] the message of
    the error is the one warning and there is no [errors] list; for every
    other kind it is the one error and there is no [warnings] list. *)
Theorem failure_classified_by_kind (args : OnResolveArgs)
    (params : OnResolveParams) (e : Error) :
  resolvedPath params = None →
  error params = Some e →
  ∃ r,
    defaultOnResolve args params = Returns (Some r)
    ∧ r_external r = Some true
    ∧ r_watchFiles r = Some (watchFiles params)
    ∧ r_path r = None ∧ r_namespace r = None
    ∧ (guarded_kind (a_kind args) →
       r_warnings r = Some [ {| text := message e |} ] ∧ r_errors r = None)
    ∧ (¬ guarded_kind (a_kind args) →
       r_errors r = Some [ {| text := message e |} ] ∧ r_warnings r = None).
Proof.
  intros Hp He. unfold defaultOnResolve. rewrite Hp, He.
  destruct (downgraded (a_kind args)) eqn:Hk.
  - apply downgraded_spec in Hk. eexists. split; [done |]. simpl.
    split_and!; [done.. | by intros _ | by intros Hn].
  - apply downgraded_false in Hk. eexists. split; [done |]. simpl.
    split_and!; [done.. | by intros Hg | by intros _].
Qed.

Lemma failure_classified_by_kind_witness :
  ∃ r,
    defaultOnResolve (Scenario.request "nope" "dynamic-import")
      {| resolvedPath := None; watchFiles := [Some Scenario.manifest];
         error := Some (Scenario.notFound "nope") |}
    = Returns (Some r)
    ∧ r_external r = Some true
    ∧ r_watchFiles r = Some [Some Scenario.manifest]
    ∧ r_warnings r = Some [ {| text := "Your application tried to access nope" |} ]
    ∧ r_errors r = None.
Proof.
  destruct (failure_classified_by_kind (Scenario.request "nope" "dynamic-import")
              {| resolvedPath := None; watchFiles := [Some Scenario.manifest];
                 error := Some (Scenario.notFound "nope") |}
              (Scenario.notFound "nope") eq_refl eq_refl)
    as (r & Hr & He & Hw & _ & _ & Hg & _).
  exists r. split; [exact Hr |]. split; [exact He |]. split; [exact Hw |].
  apply Hg. right. right. reflexivity.
Defined.

(** ** The hook: short circuit and delegation *)

(** C3. When the specifier matches the compiled externals, the hook
    returns [{external: true}] at once: the result has no other field, so
    no watch file, and neither [findPnpApi] nor any member of the provider
    is called, whatever the provider, the options and the classifier. *)
Theorem external_short_circuit
    (findPnpApi : string -> Completion (option PnpApi))
    (baseDir : string) (pluginExtensions : list string)
    (onResolve : OnResolveArgs -> OnResolveParams -> Completion (option OnResolveResult))
    (st : Setup) (args : OnResolveArgs) :
  isExternal (a_path args) (externals st) = true →
  calls (onResolveHook findPnpApi baseDir pluginExtensions onResolve st args) = []
  ∧ completion (onResolveHook findPnpApi baseDir pluginExtensions onResolve st args)
    = Returns (Some {| r_external := Some true; r_namespace := None;
                       r_path := None; r_errors := None; r_warnings := None;
                       r_watchFiles := None |}).
Proof. intros He. by rewrite onResolveHook_external. Qed.

Lemma external_short_circuit_witness :
  calls (Scenario.hook defaultOnResolve (Scenario.request "left-pad" "import-statement"))
  = []
  ∧ completion
      (Scenario.hook defaultOnResolve (Scenario.request "left-pad" "import-statement"))
    = Returns (Some {| r_external := Some true; r_namespace := None;
                       r_path := None; r_errors := None; r_warnings := None;
                       r_watchFiles := None |}).
Proof.
  apply (external_short_circuit Scenario.findPnpApi "/project" defaultExtensions
           defaultOnResolve (setup Scenario.options)
           (Scenario.request "left-pad" "import-statement")).
  reflexivity.
Defined.

(** C4. When the specifier is not external and [findPnpApi] returns
    [null] for the effective importer, the hook returns [undefined]
    (the delegation, which is not a result) and its only call is that
    lookup: no [resolveRequest], no watch file computation. *)
Theorem not_owned_delegates
    (findPnpApi : string -> Completion (option PnpApi))
    (baseDir : string) (pluginExtensions : list string)
    (onResolve : OnResolveArgs -> OnResolveParams -> Completion (option OnResolveResult))
    (st : Setup) (args : OnResolveArgs) :
  isExternal (a_path args) (externals st) = false →
  findPnpApi (effectiveImporter baseDir args) = Returns None →
  calls (onResolveHook findPnpApi baseDir pluginExtensions onResolve st args)
  = [CallFindPnpApi (effectiveImporter baseDir args)]
  ∧ completion (onResolveHook findPnpApi baseDir pluginExtensions onResolve st args)
    = Returns None.
Proof. intros He Hf. by rewrite onResolveHook_delegate. Qed.

Lemma not_owned_delegates_witness :
  calls (Scenario.hook defaultOnResolve (Scenario.foreign "lodash" "import-statement"))
  = [CallFindPnpApi "/elsewhere/"]
  ∧ completion
      (Scenario.hook defaultOnResolve (Scenario.foreign "lodash" "import-statement"))
    = Returns None.
Proof.
  apply (not_owned_delegates Scenario.findPnpApi "/project" defaultExtensions
           defaultOnResolve (setup Scenario.options)
           (Scenario.foreign "lodash" "import-statement")); reflexivity.
Defined.

(** ** The hook: provider resolution *)

Section EngineClaims.

Variable findPnpApi : string -> Completion (option PnpApi).
Variable baseDir : string.
Variable pluginExtensions : list string.
Variable st : Setup.
Variable args : OnResolveArgs.
Variable pnpApi : PnpApi.

Local Abbreviation the_hook onResolve :=
  (onResolveHook findPnpApi baseDir pluginExtensions onResolve st args).
Local Abbreviation the_params :=
  (resolveParams baseDir pluginExtensions st pnpApi args).
Local Abbreviation main_resolution :=
  (mainResolution baseDir pluginExtensions st pnpApi args).
Local Abbreviation main_call := (mainCall baseDir pluginExtensions st args).

Hypothesis not_external : isExternal (a_path args) (externals st) = false.
Hypothesis owned :
  findPnpApi (effectiveImporter baseDir args) = Returns (Some pnpApi).

(** C2, as the code has it.  For a request that reaches the provider
    resolution, either a later provider call throws and no parameters are
    handed to the classifier, or the parameters never carry both a resolved
    path and an error; they carry exactly one of them unless
    [resolveRequest] returned [null] without throwing, and in that case
    they carry neither. *)
Theorem path_and_error_exclusive :
  (∃ e, completion the_params = Throws e
        ∧ ∀ onResolve, completion (the_hook onResolve) = Throws e)
  ∨ (∃ params,
       (∀ onResolve, completion (the_hook onResolve) = onResolve args params)
       ∧ ¬ (is_Some (resolvedPath params) ∧ is_Some (error params))
       ∧ (exactly_one_set params ↔ main_resolution ≠ Returns None)
       ∧ (resolvedPath params = None ∧ error params = None
          ↔ main_resolution = Returns None)).
Proof.
  destruct (onResolveHook_outcome findPnpApi baseDir pluginExtensions st args
              pnpApi not_external owned) as [(e & He & Hh) | (params & Hp & Hh)].
  - left. by exists e.
  - right. exists params. split; [done |].
    apply resolveParams_captured in Hp as [Hc _].
    unfold exactly_one_set.
    destruct (mainResolution baseDir pluginExtensions st pnpApi args)
      as [[p|]|e]; simpl in Hc; injection Hc as -> ->.
    + split_and!.
      * by intros [_ [? [=]]].
      * split; [done |]. intros _. left. by split; [exists p |].
      * split; [by intros [[=] _] | done].
    + split_and!.
      * by intros [[? [=]] _].
      * split; [| done]. by intros [[[? [=]] _] | [_ [? [=]]]].
      * done.
    + split_and!.
      * by intros [[? [=]] _].
      * split; [done |]. intros _. right. by split; [| exists e].
      * split; [by intros [_ [=]] | done].
Qed.

(** C5. For a request that reaches the provider resolution and whose
    manifest resolution returns [m], the watch files handed to the
    classifier always start with [m].  The hook hands parameters to the
    classifier, with these watch files and with the path and the error that
    the resolution left, unless a package lookup made for the resolved path
    throws; a resolution that throws or returns [null] gives the watch
    files [[m]].  When a non-empty path [p] was resolved, its package
    located and the [linkType] of the package is [SOFT], the watch files are
    [m] followed by the virtual resolution of [p], the path returned by
    [resolveVirtual] (or [p] itself when the provider has no
    [resolveVirtual] or it returns [null]). *)
Theorem watch_set_contents (m : option string) :
  manifestResolution pnpApi = Returns m →
  ((∃ p e,
      main_resolution = Returns (Some p) ∧ lookupThrows pnpApi p e
      ∧ ∀ onResolve, completion (the_hook onResolve) = Throws e)
   ∨ (∃ params rest,
        (∀ onResolve, completion (the_hook onResolve) = onResolve args params)
        ∧ (resolvedPath params, error params) = captured main_resolution
        ∧ watchFiles params = m :: rest ∧ m ∈ watchFiles params))
  ∧ ((∀ e, main_resolution = Throws e →
        ∀ onResolve,
          completion (the_hook onResolve)
          = onResolve args {| resolvedPath := None; watchFiles := [m];
                              error := Some e |})
     ∧ (main_resolution = Returns None →
        ∀ onResolve,
          completion (the_hook onResolve)
          = onResolve args {| resolvedPath := None; watchFiles := [m];
                              error := None |}))
  ∧ (∀ p locator info v,
       main_resolution = Returns (Some p) →
       truthy p = true →
       findPackageLocator pnpApi p = Returns (Some locator) →
       getPackageInformation pnpApi locator = Returns (Some info) →
       linkType info = "SOFT" →
       virtualResolution pnpApi p = Returns v →
       (∀ onResolve,
          completion (the_hook onResolve)
          = onResolve args {| resolvedPath := Some p;
                              watchFiles := [m; Some (default p v)];
                              error := None |})
       ∧ (∀ virtual, v = Some virtual →
          ∀ onResolve,
            completion (the_hook onResolve)
            = onResolve args {| resolvedPath := Some p;
                                watchFiles := [m; Some virtual];
                                error := None |})).
Proof.
  intros Hm. split; [| split].
  - destruct (onResolveHook_outcome findPnpApi baseDir pluginExtensions st args
                pnpApi not_external owned) as [(e & He & Hh) | (params & Hp & Hh)].
    + left. rewrite resolveParams_unfold, Hm in He. unfold captured in He.
      destruct (mainResolution baseDir pluginExtensions st pnpApi args)
        as [[p|]|e'] eqn:Hr; [| by simpl in He..].
      destruct (softLinkWatch pnpApi (Some p) [m]) as [log [w|e']] eqn:Hw;
        simpl in He; [done |]. injection He as ->.
      destruct (softLinkWatch_throws pnpApi (Some p) [m] e) as (p' & [= <-] & Hl).
      { by rewrite Hw. }
      by exists p, e.
    + right. apply resolveParams_captured in Hp as [Hc (m' & Hm' & Hw)].
      rewrite Hm in Hm'. injection Hm' as <-.
      apply softLinkWatch_extends in Hw as [Hw | (p & v & _ & Hw)].
      * exists params, []. rewrite Hw. split_and!; [done.. | left].
      * exists params, [Some v]. rewrite Hw. split_and!; [done.. | left].
  - split.
    + intros e Hr onResolve.
      rewrite (onResolveHook_resolve findPnpApi baseDir pluginExtensions st
                 onResolve args pnpApi not_external owned).
      by rewrite resolveParams_unfold, Hm, Hr.
    + intros Hr onResolve.
      rewrite (onResolveHook_resolve findPnpApi baseDir pluginExtensions st
                 onResolve args pnpApi not_external owned).
      by rewrite resolveParams_unfold, Hm, Hr.
  - intros p locator info v Hr Ht Hl Hi Hs Hv.
    assert (∀ onResolve,
              completion (the_hook onResolve)
              = onResolve args {| resolvedPath := Some p;
                                  watchFiles := [m; Some (default p v)];
                                  error := None |}) as Hh.
    { intros onResolve.
      rewrite (onResolveHook_resolve findPnpApi baseDir pluginExtensions st
                 onResolve args pnpApi not_external owned).
      rewrite resolveParams_unfold, Hm, Hr. unfold captured.
      by rewrite (softLinkWatch_soft pnpApi p [m] locator info v Ht Hl Hi Hs Hv). }
    split; [done |]. intros virtual -> onResolve. apply Hh.
Qed.

(** C10. When [resolveRequest] returns [null] without throwing (a Node
    built-in, with [considerBuiltins]) and the manifest resolves to [m],
    the hook with [defaultOnResolve] makes the lookup and the two
    resolutions and returns [{external: true, watchFiles: [m]}] with an
    empty [warnings] list for the guarded kinds and an empty [errors] list
    for the other kinds: no path, no namespace, no message. *)
Theorem null_resolution_external (m : option string) :
  main_resolution = Returns None →
  manifestResolution pnpApi = Returns m →
  calls (the_hook defaultOnResolve)
  = [CallFindPnpApi (effectiveImporter baseDir args); main_call; manifestCall]
  ∧ (guarded_kind (a_kind args) →
     completion (the_hook defaultOnResolve)
     = Returns (Some {| r_external := Some true; r_namespace := None;
                        r_path := None; r_errors := None;
                        r_warnings := Some []; r_watchFiles := Some [m] |}))
  ∧ (¬ guarded_kind (a_kind args) →
     completion (the_hook defaultOnResolve)
     = Returns (Some {| r_external := Some true; r_namespace := None;
                        r_path := None; r_errors := Some [];
                        r_warnings := None; r_watchFiles := Some [m] |})).
Proof.
  intros Hr Hm.
  rewrite (onResolveHook_resolve findPnpApi baseDir pluginExtensions st
             defaultOnResolve args pnpApi not_external owned).
  rewrite resolveParams_unfold, Hm, Hr. simpl.
  unfold defaultOnResolve. simpl. split; [done |]. split.
  - intros Hk%downgraded_spec. by rewrite Hk.
  - intros Hk%downgraded_false. by rewrite Hk.
Qed.

End EngineClaims.

Section EngineWitnesses.

Import Scenario.

Local Abbreviation st0 := (setup options).

(** The built-in ["fs"]: the classifier receives neither a path nor an
    error. *)
Lemma builtin_neither_path_nor_error :
  isExternal "fs" (externals st0) = false
  ∧ findPnpApi (effectiveImporter "/project" (request "fs" "import-statement"))
    = Returns (Some api)
  ∧ (∀ onResolve,
       completion (hook onResolve (request "fs" "import-statement"))
       = onResolve (request "fs" "import-statement")
           {| resolvedPath := None; watchFiles := [Some manifest]; error := None |})
  ∧ ¬ exactly_one_set
        {| resolvedPath := None; watchFiles := [Some manifest]; error := None |}.
Proof.
  split; [reflexivity |]. split; [reflexivity |]. split.
  - intros onResolve. reflexivity.
  - by intros [[[? [=]] _] | [_ [? [=]]]].
Qed.

Lemma path_and_error_exclusive_witness :
  (∃ e, completion (resolveParams "/project" defaultExtensions st0 api
                      (request "./util" "import-statement")) = Throws e
        ∧ ∀ onResolve,
            completion (hook onResolve (request "./util" "import-statement"))
            = Throws e)
  ∨ (∃ params,
       (∀ onResolve,
          completion (hook onResolve (request "./util" "import-statement"))
          = onResolve (request "./util" "import-statement") params)
       ∧ ¬ (is_Some (resolvedPath params) ∧ is_Some (error params))
       ∧ (exactly_one_set params
          ↔ mainResolution "/project" defaultExtensions st0 api
              (request "./util" "import-statement") ≠ Returns None)
       ∧ (resolvedPath params = None ∧ error params = None
          ↔ mainResolution "/project" defaultExtensions st0 api
              (request "./util" "import-statement") = Returns None)).
Proof.
  apply (path_and_error_exclusive findPnpApi "/project" defaultExtensions st0
           (request "./util" "import-statement") api); reflexivity.
Defined.

Lemma watch_set_contents_witness :
  completion (hook defaultOnResolve (request "linked" "import-statement"))
  = Returns (Some {| r_external := None; r_namespace := Some "pnp";
                     r_path := Some "/project/__virtual__/linked/index.js";
                     r_errors := None; r_warnings := None;
                     r_watchFiles :=
                       Some [Some manifest; Some "/workspace/linked/index.js"] |})
  ∧ completion (hook defaultOnResolve (request "nope" "import-statement"))
    = defaultOnResolve (request "nope" "import-statement")
        {| resolvedPath := None; watchFiles := [Some manifest];
           error := Some (notFound "nope") |}.
Proof.
  split.
  - destruct (watch_set_contents findPnpApi "/project" defaultExtensions st0
                (request "linked" "import-statement") api eq_refl eq_refl
                (Some manifest) eq_refl) as (_ & _ & Hsoft).
    destruct (Hsoft "/project/__virtual__/linked/index.js" linked
                {| linkType := "SOFT" |} (Some "/workspace/linked/index.js")
                eq_refl eq_refl eq_refl eq_refl eq_refl eq_refl) as [_ Hvirtual].
    exact (Hvirtual "/workspace/linked/index.js" eq_refl defaultOnResolve).
  - destruct (watch_set_contents findPnpApi "/project" defaultExtensions st0
                (request "nope" "import-statement") api eq_refl eq_refl
                (Some manifest) eq_refl) as (_ & [Hfail _] & _).
    exact (Hfail (notFound "nope") eq_refl defaultOnResolve).
Defined.

Lemma null_resolution_external_witness :
  calls (hook defaultOnResolve (request "fs" "require-call"))
  = [CallFindPnpApi "/project/src/";
     mainCall "/project" defaultExtensions st0 (request "fs" "require-call");
     manifestCall]
  ∧ completion (hook defaultOnResolve (request "fs" "require-call"))
    = Returns (Some {| r_external := Some true; r_namespace := None;
                       r_path := None; r_errors := None;
                       r_warnings := Some [];
                       r_watchFiles := Some [Some manifest] |}).
Proof.
  destruct (null_resolution_external findPnpApi "/project" defaultExtensions st0
              (request "fs" "require-call") api eq_refl eq_refl
              (Some manifest) eq_refl eq_refl) as (Hc & Hg & _).
  split; [exact Hc |]. apply Hg. left. reflexivity.
Defined.

End EngineWitnesses.

(** ** ConditionSetBuilder: the claims *)

Section ConditionSetClaims.

Variable initialOptions : BuildOptions.

Local Abbreviation user := (default [] (opt_conditions initialOptions)).
Local Abbreviation platform := (default "browser" (opt_platform initialOptions)).
Local Abbreviation st := (setup initialOptions).

Lemma selectConditions_cases (kind : string) :
  selectConditions st kind = conditionsDefault st
  ∨ selectConditions st kind = conditionsImport st
  ∨ selectConditions st kind = conditionsRequire st.
Proof.
  unfold selectConditions.
  destruct (_ || _); [by right; left |]. destruct (_ || _); [by right; right |].
  by left.
Qed.

(** C6. The default set is the user conditions with ["default"] and, when
    the platform ([browser] when the options give none) is ["browser"] or
    ["node"], the platform; the import set is the default set with
    ["import"], the require set the default set with ["require"].  The
    hook does not rebuild them: the conditions of the resolution call of
    every request are one of these three sets of [setup]. *)
Theorem condition_sets_of_setup :
  (∀ x, x ∈ conditionsDefault st
        ↔ x ∈ user ∨ x = "default"
          ∨ (x = platform ∧ (platform = "browser" ∨ platform = "node")))
  ∧ conditionsImport st = conditionsDefault st ∪ {["import"]}
  ∧ conditionsRequire st = conditionsDefault st ∪ {["require"]}
  ∧ ∀ baseDir pluginExtensions pnpApi args,
      (∃ c log,
         calls (resolveParams baseDir pluginExtensions st pnpApi args)
         = CallResolveRequest (a_path args)
             (Some (effectiveImporter baseDir args))
             (Some {| conditions := c; considerBuiltins := isPlatformNode st;
                      extensions := pluginExtensions |}) :: log
         ∧ c = selectConditions st (a_kind args))
      ∧ (selectConditions st (a_kind args) = conditionsDefault st
         ∨ selectConditions st (a_kind args) = conditionsImport st
         ∨ selectConditions st (a_kind args) = conditionsRequire st).
Proof.
  split; [apply elem_of_conditionsDefault |].
  split; [done |]. split; [done |].
  intros baseDir pluginExtensions pnpApi args.
  split; [| apply selectConditions_cases].
  exists (selectConditions st (a_kind args)).
  rewrite resolveParams_unfold.
  destruct (manifestResolution pnpApi) as [m|e]; [| by eexists].
  destruct (captured _) as [path err].
  destruct (softLinkWatch pnpApi path [m]) as [log [w|e]]; by eexists.
Qed.

Lemma default_eq_import :
  conditionsDefault st = conditionsImport st ↔ "import" ∈ user.
Proof.
  rewrite <- import_in_default, conditionsImport_eq. split.
  - intros ->. apply elem_of_union_r. by apply elem_of_singleton.
  - intros Hi. symmetry. rewrite (comm_L (∪)). apply subseteq_union_1_L.
    by intros x ->%elem_of_singleton.
Qed.

Lemma default_eq_require :
  conditionsDefault st = conditionsRequire st ↔ "require" ∈ user.
Proof.
  rewrite <- require_in_default, conditionsRequire_eq. split.
  - intros ->. apply elem_of_union_r. by apply elem_of_singleton.
  - intros Hi. symmetry. rewrite (comm_L (∪)). apply subseteq_union_1_L.
    by intros x ->%elem_of_singleton.
Qed.

Lemma import_eq_require :
  conditionsImport st = conditionsRequire st
  ↔ "import" ∈ user ∧ "require" ∈ user.
Proof.
  split.
  - intros Heq. split.
    + apply import_in_default.
      assert ("import" ∈ conditionsRequire st) as Hi.
      { rewrite <- Heq, conditionsImport_eq.
        apply elem_of_union_r. by apply elem_of_singleton. }
      rewrite conditionsRequire_eq in Hi.
      apply elem_of_union in Hi as [Hi | Hi%elem_of_singleton]; done.
    + apply require_in_default.
      assert ("require" ∈ conditionsImport st) as Hi.
      { rewrite Heq, conditionsRequire_eq.
        apply elem_of_union_r. by apply elem_of_singleton. }
      rewrite conditionsImport_eq in Hi.
      apply elem_of_union in Hi as [Hi | Hi%elem_of_singleton]; done.
  - intros [Hi Hr]. apply default_eq_import in Hi. apply default_eq_require in Hr.
    congruence.
Qed.

(** C7, as the code has it.  With or without a platform, the default,
    import and require sets are pairwise distinct exactly when the user
    conditions contain neither ["import"] nor ["require"]: the default set
    equals the import set iff the user conditions contain ["import"], and
    the require set iff they contain ["require"]. *)
Theorem condition_sets_distinct_iff :
  ((conditionsDefault (setup initialOptions) ≠ conditionsImport (setup initialOptions)
    ∧ conditionsDefault (setup initialOptions) ≠ conditionsRequire (setup initialOptions)
    ∧ conditionsImport (setup initialOptions) ≠ conditionsRequire (setup initialOptions))
   ↔ ("import" ∉ user) ∧ ("require" ∉ user))
  ∧ (conditionsDefault (setup initialOptions) = conditionsImport (setup initialOptions)
     ↔ "import" ∈ user)
  ∧ (conditionsDefault (setup initialOptions) = conditionsRequire (setup initialOptions)
     ↔ "require" ∈ user).
Proof.
  split; [| split; [apply default_eq_import | apply default_eq_require]].
  rewrite default_eq_import, default_eq_require, import_eq_require. tauto.
Qed.

End ConditionSetClaims.

(** With the user condition ["import"] and the platform ["node"], the
    default and the import sets are the same set. *)
Lemma import_condition_merges_sets :
  opt_platform {| opt_external := None; opt_platform := Some "node";
                  opt_conditions := Some ["import"] |} = Some "node"
  ∧ conditionsDefault
      (setup {| opt_external := None; opt_platform := Some "node";
                opt_conditions := Some ["import"] |})
    = conditionsImport
        (setup {| opt_external := None; opt_platform := Some "node";
                  opt_conditions := Some ["import"] |}).
Proof.
  split; [done |]. apply default_eq_import. simpl. left.
Qed.

(** * Further properties of the code *)

(** ** ExternalMatcher *)

Section ExternalMatcherMore.

Implicit Types path raw prefix suffix : string.

(** Two decompositions of one string: when the tail of the first is at
    least as long as the tail of the second, the second tail ends the
    first tail. *)
Lemma append_overlap_free p t u s :
  p +:+ t = u +:+ s → (String.length s ≤ String.length t)%nat →
  ∃ middle, t = middle +:+ s.
Proof.
  revert u. induction p as [|c p IH]; intros u Heq Hlen.
  - by exists u.
  - destruct u as [|d u]; simpl in Heq.
    + apply (f_equal String.length) in Heq. simpl in Heq.
      rewrite length_append in Heq. lia.
    + injection Heq as _ Heq. by apply (IH u).
Qed.

Lemma matchesExternal_wildcard_middle path prefix suffix :
  matchesExternal path (Wildcard prefix suffix) = true
  ↔ ∃ middle, path = prefix +:+ middle +:+ suffix.
Proof.
  rewrite matchesExternal_wildcard. split.
  - intros (Hlen & [t ->] & [u Hu]).
    rewrite length_append in Hlen.
    destruct (append_overlap_free prefix t u suffix Hu) as [middle ->]; [lia |].
    by exists middle.
  - intros [middle ->]. split; [| split].
    + rewrite !length_append. lia.
    + by exists (middle +:+ suffix).
    + exists (prefix +:+ middle). by rewrite append_assoc.
Qed.

(** X1. A candidate matches a wildcard pattern exactly when it is the
    prefix, then any string, then the suffix: the length test of line 28
    keeps the prefix and the suffix from overlapping in the candidate. *)
Theorem wildcard_match_is_infix_free path prefix suffix :
  isExternal path [Wildcard prefix suffix] = true
  ↔ ∃ middle, path = prefix +:+ middle +:+ suffix.
Proof. rewrite isExternal_singleton. apply matchesExternal_wildcard_middle. Qed.

Lemma parseExternal_matches_raw raw :
  matchesExternal raw (parseExternal raw) = true.
Proof.
  destruct (indexOf_from_star raw 0) as [[Hn _] | (a & b & -> & Ha & _)].
  - rewrite parseExternal_exact by done. simpl. by rewrite String.eqb_refl.
  - rewrite parseExternal_wildcard by done.
    apply matchesExternal_wildcard_middle. by exists "*".
Qed.

(** X2. Every configured external is external itself: a specifier equal
    to one of the raw externals, with or without ["*"], matches the
    compiled list. *)
Theorem configured_external_matches (externals : list string) raw :
  raw ∈ externals → isExternal raw (parseExternals externals) = true.
Proof.
  intros Hin. apply isExternal_exists. exists (parseExternal raw).
  split; [| apply parseExternal_matches_raw].
  unfold parseExternals. apply list_elem_of_In, in_map, list_elem_of_In, Hin.
Qed.

Lemma configured_external_matches_witness :
  isExternal "@scope/*" (parseExternals ["react"; "@scope/*"; "./local"]) = true.
Proof.
  apply (configured_external_matches ["react"; "@scope/*"; "./local"] "@scope/*").
  right. left.
Defined.

(** X3. The externals are tried one after the other and any match
    decides: a candidate is external for a list iff some pattern of the
    list matches it, so for two lists put together iff it is external for
    one of them.  Adding externals never makes a candidate internal. *)
Theorem isExternal_any_pattern path (xs ys : list External) :
  (isExternal path xs = true
   ↔ ∃ pattern, pattern ∈ xs ∧ matchesExternal path pattern = true)
  ∧ isExternal path (xs ++ ys) = isExternal path xs || isExternal path ys.
Proof.
  split; [apply isExternal_exists |].
  induction xs as [|x xs IH]; simpl; [done |].
  by destruct (matchesExternal path x).
Qed.

(** X4. Compilation loses nothing: the raw external is read back from its
    pattern, as the pattern itself when it is exact and as prefix, ["*"],
    suffix when it is a wildcard.  An exact pattern has no ["*"], and the
    prefix of a wildcard pattern has none (the suffix may). *)
Theorem parseExternal_round_trip raw :
  rawOf (parseExternal raw) = raw
  ∧ match parseExternal raw with
    | Exact external => ¬ has_star external
    | Wildcard prefix _ => ¬ has_star prefix
    end.
Proof.
  destruct (indexOf_from_star raw 0) as [[Hn _] | (a & b & -> & Ha & _)].
  - by rewrite parseExternal_exact.
  - by rewrite parseExternal_wildcard.
Qed.

(** X5. An exact pattern that is not a bare package name (it starts with
    ["/"], ["./"] or ["../"], or is ["."] or [".."]) matches itself only:
    the paths below it are not external. *)
Theorem relative_external_matches_itself_only path external :
  ¬ bare_package_name external →
  (isExternal path [Exact external] = true ↔ path = external).
Proof.
  intros Hn. rewrite isExternal_singleton, matchesExternal_exact. tauto.
Qed.

Lemma relative_external_matches_itself_only_witness :
  isExternal "./vendor/lib.js" [Exact "./vendor"] = true
  ↔ "./vendor/lib.js" = "./vendor".
Proof.
  apply (relative_external_matches_itself_only "./vendor/lib.js" "./vendor").
  intros Hb%isBare_spec. discriminate Hb.
Defined.

End ExternalMatcherMore.

(** ** Conditions of a request *)

Lemma import_kind_spec (kind : string) :
  String.eqb kind "dynamic-import" || String.eqb kind "import-statement" = true
  ↔ import_kind kind.
Proof. unfold import_kind. by rewrite orb_true_iff, !String.eqb_eq. Qed.

Lemma require_kind_spec (kind : string) :
  String.eqb kind "require-call" || String.eqb kind "require-resolve" = true
  ↔ require_kind kind.
Proof. unfold require_kind. by rewrite orb_true_iff, !String.eqb_eq. Qed.

Lemma import_not_require (kind : string) : import_kind kind → ¬ require_kind kind.
Proof. intros [-> | ->] [H | H]; discriminate H. Qed.

(** X6. The conditions given to the provider for a request are the
    default set of [setup], with ["import"] for the kinds [dynamic-import]
    and [import-statement], with ["require"] for [require-call] and
    [require-resolve], and nothing more: every other kind, entry points
    included, gets the default set.  So ["default"] is always among them. *)
Theorem conditions_of_kind (initialOptions : BuildOptions) (kind x : string) :
  (x ∈ selectConditions (setup initialOptions) kind
   ↔ x ∈ conditionsDefault (setup initialOptions)
     ∨ (x = "import" ∧ import_kind kind)
     ∨ (x = "require" ∧ require_kind kind))
  ∧ "default" ∈ selectConditions (setup initialOptions) kind.
Proof.
  assert (∀ y, y ∈ selectConditions (setup initialOptions) kind
               ↔ y ∈ conditionsDefault (setup initialOptions)
                 ∨ (y = "import" ∧ import_kind kind)
                 ∨ (y = "require" ∧ require_kind kind)) as H.
  { intros y. unfold selectConditions.
    destruct (String.eqb kind "dynamic-import" || _) eqn:Hi.
    - apply import_kind_spec in Hi. pose proof (import_not_require kind Hi).
      rewrite conditionsImport_eq, elem_of_union, elem_of_singleton. tauto.
    - assert (¬ import_kind kind) as Hni
        by (rewrite <- import_kind_spec, Hi; discriminate).
      destruct (String.eqb kind "require-call" || _) eqn:Hr.
      + apply require_kind_spec in Hr.
        rewrite conditionsRequire_eq, elem_of_union, elem_of_singleton. tauto.
      + assert (¬ require_kind kind) as Hnr
          by (rewrite <- require_kind_spec, Hr; discriminate).
        tauto. }
  split; [apply H |]. apply H. left. apply elem_of_conditionsDefault. tauto.
Qed.

(** X7. The platform option: built-ins are considered exactly when it is
    ["node"]; without the option the platform is ["browser"], which is
    then a default condition; and a platform that is given is a default
    condition only if it is ["browser"] or ["node"], or if the user
    conditions have it, or it is ["default"]. *)
Theorem platform_of_setup (initialOptions : BuildOptions) :
  (isPlatformNode (setup initialOptions) = true
   ↔ opt_platform initialOptions = Some "node")
  ∧ (opt_platform initialOptions = None →
     "browser" ∈ conditionsDefault (setup initialOptions))
  ∧ (∀ platform, opt_platform initialOptions = Some platform →
       (platform ∈ conditionsDefault (setup initialOptions)
        ↔ platform = "browser" ∨ platform = "node" ∨ platform = "default"
          ∨ platform ∈ default [] (opt_conditions initialOptions))).
Proof.
  split; [| split].
  - unfold setup. simpl. rewrite String.eqb_eq.
    destruct (opt_platform initialOptions) as [p|]; simpl;
      [split; congruence | split; discriminate].
  - intros Hp. apply elem_of_conditionsDefault. rewrite Hp. simpl. tauto.
  - intros platform Hp. rewrite elem_of_conditionsDefault, Hp. simpl. tauto.
Qed.

Lemma platform_of_setup_witness :
  "browser" ∈ conditionsDefault (setup Failing.options)
  ∧ ("node" ∈ conditionsDefault (setup Scenario.options)
     ↔ "node" = "browser" ∨ "node" = "node" ∨ "node" = "default"
       ∨ "node" ∈ default [] (opt_conditions Scenario.options)).
Proof.
  split.
  - apply (proj1 (proj2 (platform_of_setup Failing.options))). reflexivity.
  - apply (proj2 (proj2 (platform_of_setup Scenario.options)) "node").
    reflexivity.
Defined.

(** ** The effective importer *)

(** X8. The importer given to [findPnpApi] and to the provider is never
    the empty string, whatever the request: without [resolveDir] and
    [importer] (an entry point) it is [baseDir] followed by ["/"].  When
    [resolveDir] is set it is [resolveDir] followed by ["/"], whatever the
    importer. *)
Theorem effectiveImporter_nonempty (baseDir : string) (args : OnResolveArgs) :
  effectiveImporter baseDir args ≠ ""
  ∧ (a_resolveDir args ≠ "" →
     effectiveImporter baseDir args = a_resolveDir args +:+ "/")
  ∧ (a_resolveDir args = "" → a_importer args = "" →
     effectiveImporter baseDir args = baseDir +:+ "/").
Proof.
  unfold effectiveImporter.
  destruct (a_resolveDir args) as [|c d]; simpl.
  - destruct (a_importer args) as [|c' i]; simpl.
    + split; [by destruct baseDir | done].
    + by split.
  - by split.
Qed.

Lemma effectiveImporter_nonempty_witness :
  effectiveImporter "/cwd" (Failing.request "/broken" "./ok" "entry-point")
  = "/broken" +:+ "/"
  ∧ effectiveImporter "/cwd" (Failing.request "" "./ok" "entry-point")
    = "/cwd" +:+ "/".
Proof.
  split.
  - apply (proj1 (proj2 (effectiveImporter_nonempty "/cwd"
                           (Failing.request "/broken" "./ok" "entry-point")))).
    discriminate.
  - apply (proj2 (proj2 (effectiveImporter_nonempty "/cwd"
                           (Failing.request "" "./ok" "entry-point"))));
      reflexivity.
Defined.

(** ** The classifier on every input *)

Lemma defaultOnResolve_returns (args : OnResolveArgs) (params : OnResolveParams) :
  ∃ r, defaultOnResolve args params = Returns (Some r).
Proof.
  unfold defaultOnResolve.
  destruct (resolvedPath params); [by eexists |].
  destruct (downgraded (a_kind args)); by eexists.
Qed.

(** X9. [defaultOnResolve] always returns a result, never the delegation
    and never a failure.  The result carries the watch files it was given
    and the resolved path as its path; it is external exactly when there is
    no resolved path and in the [pnp] namespace exactly when there is one;
    it never has both an [errors] and a [warnings] list, a list has at most
    one message, and a result with a path has neither list, even when an
    error came with the path. *)
Theorem defaultOnResolve_shape (args : OnResolveArgs) (params : OnResolveParams) :
  ∃ r,
    defaultOnResolve args params = Returns (Some r)
    ∧ r_watchFiles r = Some (watchFiles params)
    ∧ r_path r = resolvedPath params
    ∧ (r_external r = Some true ↔ resolvedPath params = None)
    ∧ (r_namespace r = Some "pnp" ↔ is_Some (resolvedPath params))
    ∧ ¬ (is_Some (r_errors r) ∧ is_Some (r_warnings r))
    ∧ (∀ messages, r_errors r = Some messages ∨ r_warnings r = Some messages →
         (length messages ≤ 1)%nat)
    ∧ (is_Some (resolvedPath params) → r_errors r = None ∧ r_warnings r = None).
Proof.
  unfold defaultOnResolve.
  destruct (resolvedPath params) as [p|].
  - eexists. split; [done |]. simpl. split_and!; try done.
    + by intros [[? [=]] _].
    + by intros messages [[=] | [=]].
  - assert (∀ messages,
              Some match error params with
                   | Some e => [ {| text := message e |} ]
                   | None => []
                   end = Some messages → (length messages ≤ 1)%nat) as Hlen.
    { intros messages [= <-]. destruct (error params); simpl; lia. }
    destruct (downgraded (a_kind args)); eexists; (split; [done |]); simpl;
      split_and!; try done.
    + by intros [[? [=]] _].
    + intros messages [[=] | H]. by apply Hlen.
    + by intros [_ [? [=]]].
    + intros messages [H | [=]]. by apply Hlen.
Qed.

Lemma defaultOnResolve_shape_witness :
  ∃ r,
    defaultOnResolve (Scenario.request "./util" "require-call")
      {| resolvedPath := Some "/store/pkgA/util.js";
         watchFiles := [Some Scenario.manifest];
         error := Some (Scenario.notFound "./util") |}
    = Returns (Some r)
    ∧ r_path r = Some "/store/pkgA/util.js"
    ∧ r_errors r = None ∧ r_warnings r = None.
Proof.
  destruct (defaultOnResolve_shape (Scenario.request "./util" "require-call")
              {| resolvedPath := Some "/store/pkgA/util.js";
                 watchFiles := [Some Scenario.manifest];
                 error := Some (Scenario.notFound "./util") |})
    as (r & Hr & _ & Hp & _ & _ & _ & _ & Hnone).
  exists r. split; [exact Hr |]. split; [exact Hp |].
  apply Hnone. by eexists.
Defined.

(** ** The hook: calls, failures and watch files *)

Section HookMore.

Variable findPnpApi : string -> Completion (option PnpApi).
Variable baseDir : string.
Variable pluginExtensions : list string.
Variable st : Setup.
Variable args : OnResolveArgs.

Local Abbreviation importer := (effectiveImporter baseDir args).
Local Abbreviation the_hook onResolve :=
  (onResolveHook findPnpApi baseDir pluginExtensions onResolve st args).
Local Abbreviation main_resolution pnpApi :=
  (mainResolution baseDir pluginExtensions st pnpApi args).
Local Abbreviation main_call := (mainCall baseDir pluginExtensions st args).

Lemma softLinkWatch_calls (pnpApi : PnpApi) (path : option string)
    (w : list (option string)) :
  (calls (softLinkWatch pnpApi path w) = []
   ∧ ¬ ∃ p, path = Some p ∧ truthy p = true)
  ∨ (∃ p locator,
       path = Some p ∧ truthy p = true
       ∧ calls (softLinkWatch pnpApi path w) ≠ []
       ∧ calls (softLinkWatch pnpApi path w) `prefix_of` lookupCalls p locator).
Proof.
  pose (nobody := {| name := None; reference := "" |}).
  unfold softLinkWatch, virtualOrSelf, lookupCalls, calls, bind, call, ret.
  destruct path as [p|]; [| left; split; [done | by intros (? & [=] & _)]].
  destruct (truthy p) eqn:Ht;
    [| left; split; [done | intros (? & [= <-] & H); congruence]].
  right.
  destruct (findPackageLocator pnpApi p) as [[loc|]|e]; simpl;
    [| exists p, nobody; split_and!; [done.. | by eexists]..].
  destruct (getPackageInformation pnpApi loc) as [[info|]|e]; simpl;
    [| exists p, loc; split_and!; [done.. | by eexists]..].
  destruct (String.eqb (linkType info) "SOFT"); simpl;
    [| exists p, loc; split_and!; [done.. | by eexists]].
  destruct (resolveVirtual pnpApi) as [f|]; simpl;
    [| exists p, loc; split_and!; [done.. | by eexists]].
  destruct (f p); simpl; exists p, loc; (split_and!; [done.. | by eexists]).
Qed.

Lemma prefix_of_lookupCalls (rest : list Call) (p : string)
    (locator : PackageLocator) :
  rest `prefix_of` lookupCalls p locator →
  rest = [] ∨ rest = [CallFindPackageLocator p]
  ∨ rest = [CallFindPackageLocator p; CallGetPackageInformation locator]
  ∨ rest = lookupCalls p locator.
Proof.
  unfold lookupCalls. intros [k Hk].
  destruct rest as [|a [|b [|c [|d rest]]]]; simplify_eq/=; auto.
Qed.

(** The calls of the hook and the conditions under which each is made. *)
Lemma hook_calls_by_case
    (onResolve : OnResolveArgs -> OnResolveParams -> Completion (option OnResolveResult)) :
  (isExternal (a_path args) (externals st) = true →
   calls (the_hook onResolve) = [])
  ∧ (isExternal (a_path args) (externals st) = false →
     (∀ pnpApi, findPnpApi importer ≠ Returns (Some pnpApi)) →
     calls (the_hook onResolve) = [CallFindPnpApi importer])
  ∧ (isExternal (a_path args) (externals st) = false →
     ∀ pnpApi, findPnpApi importer = Returns (Some pnpApi) →
     ∃ rest,
       calls (the_hook onResolve)
       = CallFindPnpApi importer :: main_call :: manifestCall :: rest
       ∧ ((rest = []
           ∧ ¬ ∃ m p, manifestResolution pnpApi = Returns m
                      ∧ main_resolution pnpApi = Returns (Some p)
                      ∧ truthy p = true)
          ∨ (∃ m p locator,
               manifestResolution pnpApi = Returns m
               ∧ main_resolution pnpApi = Returns (Some p)
               ∧ truthy p = true
               ∧ rest ≠ []
               ∧ rest `prefix_of` lookupCalls p locator))).
Proof.
  split; [| split].
  - intros He. by rewrite onResolveHook_external.
  - intros He Hnone.
    destruct (findPnpApi importer) as [[pnpApi|]|e] eqn:Hf.
    + by destruct (Hnone pnpApi).
    + by rewrite onResolveHook_delegate.
    + unfold onResolveHook, bind, call. by rewrite He, Hf.
  - intros He pnpApi Hf.
    rewrite (onResolveHook_resolve findPnpApi baseDir pluginExtensions st
               onResolve args pnpApi He Hf), resolveParams_unfold.
    destruct (manifestResolution pnpApi) as [m|e].
    + destruct (captured (main_resolution pnpApi)) as [path err] eqn:Hc.
      assert (∀ p, path = Some p → main_resolution pnpApi = Returns (Some p))
        as Hpath.
      { intros p ->. unfold captured in Hc.
        by destruct (mainResolution _ _ _ _ _); simplify_eq. }
      assert (∀ p, main_resolution pnpApi = Returns (Some p) → path = Some p)
        as Hmain.
      { intros p Hr. rewrite Hr in Hc. by injection Hc as <- _. }
      exists (calls (softLinkWatch pnpApi path [m])). split.
      { by destruct (softLinkWatch pnpApi path [m]) as [log [w|e]]. }
      destruct (softLinkWatch_calls pnpApi path [m])
        as [[Hnil Hno] | (p & loc & Hp & Ht & Hne & Hpre)].
      * left. split; [done |]. intros (m' & p & _ & Hr & Ht).
        apply Hno. exists p. split; [by apply Hmain | done].
      * right. exists m, p, loc. split_and!; [done | by apply Hpath | done..].
    + exists []. split; [done |]. left. split; [done |].
      by intros (m & p & [=] & _).
Qed.

(** X10. One request makes at most six provider calls, none of them
    twice, in a fixed order: none when the specifier is external;
    otherwise [findPnpApi], and nothing else when it finds no provider;
    when a provider is found, then the resolution of the request and the
    resolution of the manifest; and then, exactly when the manifest and a
    non-empty path were resolved, a non-empty initial part of: package
    locator, package information, virtual resolution. *)
Theorem hook_call_log
    (onResolve : OnResolveArgs -> OnResolveParams -> Completion (option OnResolveResult)) :
  (isExternal (a_path args) (externals st) = true →
   calls (the_hook onResolve) = [])
  ∧ (isExternal (a_path args) (externals st) = false →
     (∀ pnpApi, findPnpApi importer ≠ Returns (Some pnpApi)) →
     calls (the_hook onResolve) = [CallFindPnpApi importer])
  ∧ (isExternal (a_path args) (externals st) = false →
     ∀ pnpApi, findPnpApi importer = Returns (Some pnpApi) →
     ∃ rest,
       calls (the_hook onResolve)
       = CallFindPnpApi importer :: main_call :: manifestCall :: rest
       ∧ ((rest = []
           ∧ ¬ ∃ m p, manifestResolution pnpApi = Returns m
                      ∧ main_resolution pnpApi = Returns (Some p)
                      ∧ truthy p = true)
          ∨ (∃ m p locator,
               manifestResolution pnpApi = Returns m
               ∧ main_resolution pnpApi = Returns (Some p)
               ∧ truthy p = true
               ∧ rest ≠ []
               ∧ rest `prefix_of` lookupCalls p locator)))
  ∧ (length (calls (the_hook onResolve)) ≤ 6)%nat
  ∧ NoDup (calls (the_hook onResolve)).
Proof.
  destruct (hook_calls_by_case onResolve) as (Hext & Hnone & Hsome).
  split; [done |]. split; [done |]. split; [done |].
  destruct (isExternal (a_path args) (externals st)) eqn:He.
  { rewrite Hext by done. split; [simpl; lia | apply NoDup_nil_2]. }
  destruct (findPnpApi importer) as [[pnpApi|]|e] eqn:Hf.
  - destruct (Hsome eq_refl pnpApi eq_refl)
      as (rest & -> & [[-> _] | (m & p & loc & _ & _ & _ & _ & Hpre)]).
    + split; [simpl; lia |].
      unfold mainCall, manifestCall.
      repeat (apply NoDup_cons; split;
              [rewrite ?not_elem_of_cons; split_and?;
               try discriminate; apply not_elem_of_nil |]).
      apply NoDup_nil_2.
    + apply prefix_of_lookupCalls in Hpre.
      unfold mainCall, manifestCall, lookupCalls in *.
      destruct Hpre as [-> | [-> | [-> | ->]]]; (split; [simpl; lia |]);
        repeat (apply NoDup_cons; split;
                [rewrite ?not_elem_of_cons; split_and?;
                 try discriminate; apply not_elem_of_nil |]);
        apply NoDup_nil_2.
  - rewrite Hnone by done. split; [simpl; lia | apply NoDup_singleton].
  - rewrite Hnone by done. split; [simpl; lia | apply NoDup_singleton].
Qed.

Hypothesis not_external : isExternal (a_path args) (externals st) = false.

(** X11. Two failures are not caught.  When [findPnpApi] throws, or when
    the provider is found but the resolution of its manifest throws, the
    hook throws that error whatever the classifier and whatever the
    outcome of the resolution of the request, which was made before. *)
Theorem setup_failures_propagate (e : Error) :
  (findPnpApi importer = Throws e →
   ∀ onResolve, the_hook onResolve = ([CallFindPnpApi importer], Throws e))
  ∧ (∀ pnpApi,
       findPnpApi importer = Returns (Some pnpApi) →
       manifestResolution pnpApi = Throws e →
       ∀ onResolve,
         the_hook onResolve
         = ([CallFindPnpApi importer; main_call; manifestCall], Throws e)).
Proof.
  split.
  - intros Hf onResolve. unfold onResolveHook, bind, call.
    by rewrite not_external, Hf.
  - intros pnpApi Hf Hm onResolve.
    rewrite (onResolveHook_resolve findPnpApi baseDir pluginExtensions st
               onResolve args pnpApi not_external Hf), resolveParams_unfold.
    by rewrite Hm.
Qed.

Variable pnpApi : PnpApi.
Hypothesis owned : findPnpApi importer = Returns (Some pnpApi).

(** X12. A failure of the resolution of the request is caught: when
    [resolveRequest] throws and the manifest resolves to [m], the hook
    makes no package lookup and completes as the classifier does on the
    parameters with no path, the error that was thrown and the watch files
    [[m]]. *)
Theorem resolution_failure_captured (e : Error) (m : option string) :
  main_resolution pnpApi = Throws e →
  manifestResolution pnpApi = Returns m →
  ∀ onResolve,
    the_hook onResolve
    = ([CallFindPnpApi importer; main_call; manifestCall],
       onResolve args {| resolvedPath := None; watchFiles := [m];
                         error := Some e |}).
Proof.
  intros Hr Hm onResolve.
  rewrite (onResolveHook_resolve findPnpApi baseDir pluginExtensions st
             onResolve args pnpApi not_external owned), resolveParams_unfold.
  by rewrite Hm, Hr.
Qed.

(** X13. For a resolved path whose package is not located, has no
    information or has a [linkType] other than [SOFT], the watch files are
    the manifest alone and [resolveVirtual] is not called; with
    [defaultOnResolve] the result is the path in the [pnp] namespace with
    these watch files, whatever the kind. *)
Theorem hard_link_watches_manifest_only (p : string) (m : option string) :
  main_resolution pnpApi = Returns (Some p) →
  manifestResolution pnpApi = Returns m →
  findPackageLocator pnpApi p = Returns None
  ∨ (∃ locator,
       findPackageLocator pnpApi p = Returns (Some locator)
       ∧ (getPackageInformation pnpApi locator = Returns None
          ∨ ∃ info, getPackageInformation pnpApi locator = Returns (Some info)
                    ∧ linkType info ≠ "SOFT")) →
  (∀ onResolve,
     completion (the_hook onResolve)
     = onResolve args {| resolvedPath := Some p; watchFiles := [m];
                         error := None |}
     ∧ CallResolveVirtual p ∉ calls (the_hook onResolve))
  ∧ completion (the_hook defaultOnResolve)
    = Returns (Some {| r_external := None; r_namespace := Some "pnp";
                       r_path := Some p; r_errors := None; r_warnings := None;
                       r_watchFiles := Some [m] |}).
Proof.
  intros Hr Hm Hhard.
  assert (∃ log, softLinkWatch pnpApi (Some p) [m] = (log, Returns [m])
                 ∧ CallResolveVirtual p ∉ log) as (log & Hw & Hlog).
  { unfold softLinkWatch, bind, call, ret.
    destruct (truthy p); [| exists []; split; [done | apply not_elem_of_nil]].
    destruct Hhard as [-> | (loc & -> & [-> | (info & -> & Hs)])]; simpl.
    - eexists. split; [done |]. by intros [=]%list_elem_of_singleton.
    - eexists. split; [done |].
      by intros [[=] | [=]%list_elem_of_singleton]%elem_of_cons.
    - apply String.eqb_neq in Hs. rewrite Hs. simpl.
      eexists. split; [done |].
      by intros [[=] | [=]%list_elem_of_singleton]%elem_of_cons. }
  assert (∀ onResolve,
            completion (the_hook onResolve)
            = onResolve args {| resolvedPath := Some p; watchFiles := [m];
                                error := None |}
            ∧ CallResolveVirtual p ∉ calls (the_hook onResolve)) as Hall.
  { intros onResolve.
    rewrite (onResolveHook_resolve findPnpApi baseDir pluginExtensions st
               onResolve args pnpApi not_external owned), resolveParams_unfold.
    rewrite Hm, Hr. unfold captured. rewrite Hw. split; [done |]. simpl.
    intros [[=] | [[=] | [[=] | Hin]%elem_of_cons]%elem_of_cons]%elem_of_cons.
    by apply Hlog. }
  split; [done |]. by rewrite (proj1 (Hall defaultOnResolve)).
Qed.

(** X14. A failure of the package lookups is not caught either: when the
    path was resolved (and is not empty) and the manifest too, but
    [findPackageLocator] throws, or [getPackageInformation] throws for the
    locator found, the hook throws that error and the classifier does not
    get the resolved path. *)
Theorem lookup_failures_propagate (p : string) (m : option string) (e : Error) :
  main_resolution pnpApi = Returns (Some p) →
  truthy p = true →
  manifestResolution pnpApi = Returns m →
  (findPackageLocator pnpApi p = Throws e →
   ∀ onResolve,
     the_hook onResolve
     = ([CallFindPnpApi importer; main_call; manifestCall;
         CallFindPackageLocator p], Throws e))
  ∧ (∀ locator,
       findPackageLocator pnpApi p = Returns (Some locator) →
       getPackageInformation pnpApi locator = Throws e →
       ∀ onResolve,
         the_hook onResolve
         = ([CallFindPnpApi importer; main_call; manifestCall;
             CallFindPackageLocator p; CallGetPackageInformation locator],
            Throws e)).
Proof.
  intros Hr Ht Hm. split.
  - intros Hl onResolve.
    rewrite (onResolveHook_resolve findPnpApi baseDir pluginExtensions st
               onResolve args pnpApi not_external owned), resolveParams_unfold.
    rewrite Hm, Hr. unfold captured, softLinkWatch, bind, call.
    by rewrite Ht, Hl.
  - intros locator Hl Hi onResolve.
    rewrite (onResolveHook_resolve findPnpApi baseDir pluginExtensions st
               onResolve args pnpApi not_external owned), resolveParams_unfold.
    rewrite Hm, Hr. unfold captured, softLinkWatch, bind, call.
    by rewrite Ht, Hl, Hi.
Qed.

End HookMore.

(** X15. With [defaultOnResolve], the hook delegates to the next resolver
    in exactly one case: the specifier is not external and [findPnpApi]
    returns [null] for the effective importer.  A specifier that the
    provider cannot resolve is never delegated. *)
Theorem delegation_iff_not_owned
    (findPnpApi : string -> Completion (option PnpApi))
    (baseDir : string) (pluginExtensions : list string)
    (st : Setup) (args : OnResolveArgs) :
  completion (onResolveHook findPnpApi baseDir pluginExtensions
                defaultOnResolve st args) = Returns None
  ↔ isExternal (a_path args) (externals st) = false
    ∧ findPnpApi (effectiveImporter baseDir args) = Returns None.
Proof.
  split.
  - destruct (isExternal (a_path args) (externals st)) eqn:He.
    { by rewrite onResolveHook_external. }
    destruct (findPnpApi (effectiveImporter baseDir args)) as [[pnpApi|]|e] eqn:Hf.
    + rewrite (onResolveHook_resolve findPnpApi baseDir pluginExtensions st
                 defaultOnResolve args pnpApi He Hf).
      destruct (resolveParams _ _ _ _ _) as [log [params|e]]; [| done].
      destruct (defaultOnResolve_returns args params) as [r Hr].
      unfold completion. simpl. by rewrite Hr.
    + done.
    + unfold onResolveHook, bind, call. by rewrite He, Hf.
  - intros [He Hf]. by rewrite onResolveHook_delegate.
Qed.

Section HookMoreWitnesses.

Import Failing.

Lemma hook_call_log_witness :
  calls (Scenario.hook defaultOnResolve
           (Scenario.request "left-pad" "import-statement")) = []
  ∧ calls (Scenario.hook defaultOnResolve
             (Scenario.foreign "lodash" "import-statement"))
    = [CallFindPnpApi "/elsewhere/"]
  ∧ ∃ rest,
      calls (Scenario.hook defaultOnResolve
               (Scenario.request "linked" "import-statement"))
      = CallFindPnpApi "/project/src/"
          :: mainCall "/project" defaultExtensions (setup Scenario.options)
               (Scenario.request "linked" "import-statement")
          :: manifestCall :: rest
      ∧ ((rest = []
          ∧ ¬ ∃ m p,
                manifestResolution Scenario.api = Returns m
                ∧ mainResolution "/project" defaultExtensions
                    (setup Scenario.options) Scenario.api
                    (Scenario.request "linked" "import-statement")
                  = Returns (Some p)
                ∧ truthy p = true)
         ∨ (∃ m p locator,
              manifestResolution Scenario.api = Returns m
              ∧ mainResolution "/project" defaultExtensions
                  (setup Scenario.options) Scenario.api
                  (Scenario.request "linked" "import-statement")
                = Returns (Some p)
              ∧ truthy p = true
              ∧ rest ≠ []
              ∧ rest `prefix_of` lookupCalls p locator)).
Proof.
  split; [| split].
  - apply (proj1 (hook_call_log Scenario.findPnpApi "/project" defaultExtensions
                    (setup Scenario.options)
                    (Scenario.request "left-pad" "import-statement")
                    defaultOnResolve)).
    reflexivity.
  - apply (proj1 (proj2 (hook_call_log Scenario.findPnpApi "/project"
                           defaultExtensions (setup Scenario.options)
                           (Scenario.foreign "lodash" "import-statement")
                           defaultOnResolve))).
    + reflexivity.
    + intros pnpApi. discriminate.
  - apply (proj1 (proj2 (proj2 (hook_call_log Scenario.findPnpApi "/project"
                                  defaultExtensions (setup Scenario.options)
                                  (Scenario.request "linked" "import-statement")
                                  defaultOnResolve)))).
    + reflexivity.
    + reflexivity.
Defined.

Lemma setup_failures_propagate_witness :
  hook defaultOnResolve (request "/elsewhere" "./ok" "import-statement")
  = ([CallFindPnpApi "/elsewhere/"], Throws noApi)
  ∧ hook defaultOnResolve (request "/broken" "./ok" "import-statement")
    = ([CallFindPnpApi "/broken/";
        mainCall "/cwd" defaultExtensions (setup options)
          (request "/broken" "./ok" "import-statement");
        manifestCall], Throws noManifest).
Proof.
  split.
  - apply (proj1 (setup_failures_propagate findPnpApi "/cwd" defaultExtensions
                    (setup options)
                    (request "/elsewhere" "./ok" "import-statement")
                    eq_refl noApi) eq_refl defaultOnResolve).
  - apply (proj2 (setup_failures_propagate findPnpApi "/cwd" defaultExtensions
                    (setup options)
                    (request "/broken" "./ok" "import-statement")
                    eq_refl noManifest) broken eq_refl eq_refl defaultOnResolve).
Defined.

Lemma resolution_failure_captured_witness :
  Scenario.hook defaultOnResolve (Scenario.request "nope" "import-statement")
  = ([CallFindPnpApi "/project/src/";
      mainCall "/project" defaultExtensions (setup Scenario.options)
        (Scenario.request "nope" "import-statement");
      manifestCall],
     defaultOnResolve (Scenario.request "nope" "import-statement")
       {| resolvedPath := None; watchFiles := [Some Scenario.manifest];
          error := Some (Scenario.notFound "nope") |}).
Proof.
  apply (resolution_failure_captured Scenario.findPnpApi "/project"
           defaultExtensions (setup Scenario.options)
           (Scenario.request "nope" "import-statement") eq_refl
           Scenario.api eq_refl (Scenario.notFound "nope")
           (Some Scenario.manifest) eq_refl eq_refl defaultOnResolve).
Defined.

Lemma hard_link_watches_manifest_only_witness :
  completion
    (Scenario.hook defaultOnResolve (Scenario.request "./util" "import-statement"))
  = Returns (Some {| r_external := None; r_namespace := Some "pnp";
                     r_path := Some "/store/pkgA/util.js";
                     r_errors := None; r_warnings := None;
                     r_watchFiles := Some [Some Scenario.manifest] |}).
Proof.
  apply (hard_link_watches_manifest_only Scenario.findPnpApi "/project"
           defaultExtensions (setup Scenario.options)
           (Scenario.request "./util" "import-statement") eq_refl
           Scenario.api eq_refl "/store/pkgA/util.js" (Some Scenario.manifest)
           eq_refl eq_refl).
  right. exists Scenario.pkgA. split; [reflexivity |].
  right. exists {| linkType := "HARD" |}. split; [reflexivity | discriminate].
Defined.

Lemma lookup_failures_propagate_witness :
  hook defaultOnResolve (request "/partial" "./ok" "import-statement")
  = ([CallFindPnpApi "/partial/";
      mainCall "/cwd" defaultExtensions (setup options)
        (request "/partial" "./ok" "import-statement");
      manifestCall; CallFindPackageLocator "/partial/ok.js"],
     Throws noLocator).
Proof.
  apply (proj1 (lookup_failures_propagate findPnpApi "/cwd" defaultExtensions
                  (setup options)
                  (request "/partial" "./ok" "import-statement") eq_refl
                  partial eq_refl "/partial/ok.js" (Some "/partial/.pnp.cjs")
                  noLocator eq_refl eq_refl eq_refl) eq_refl defaultOnResolve).
Defined.

End HookMoreWitnesses.

(** ** Externals, from the options to the hook *)

Lemma matchesExternal_subpath (external rest : string) :
  bare_package_name external →
  matchesExternal (external +:+ "/" +:+ rest) (Exact external) = true.
Proof.
  intros Hb. apply matchesExternal_exact. right. split; [done |].
  exists rest. by rewrite append_assoc.
Qed.

(** X16. Marking a package external in the build options externalizes the
    package and every path below it, before any provider call: for a bare
    package name without ["*"] among the externals, the hook set up from
    the options returns [{external: true}] for the name and for the name
    followed by ["/"] and anything, with an empty call log. *)
Theorem external_package_covers_subpaths
    (findPnpApi : string -> Completion (option PnpApi))
    (baseDir : string) (pluginExtensions : list string)
    (onResolve : OnResolveArgs -> OnResolveParams -> Completion (option OnResolveResult))
    (initialOptions : BuildOptions) (args : OnResolveArgs) (pkg : string) :
  pkg ∈ default [] (opt_external initialOptions) →
  bare_package_name pkg →
  ¬ has_star pkg →
  a_path args = pkg ∨ (∃ rest, a_path args = pkg +:+ "/" +:+ rest) →
  onResolveHook findPnpApi baseDir pluginExtensions onResolve
    (setup initialOptions) args
  = ([], Returns (Some external_only)).
Proof.
  intros Hin Hb Hn Hpath. apply onResolveHook_external.
  apply isExternal_exists. exists (Exact pkg). split.
  - simpl. unfold parseExternals.
    rewrite <- (parseExternal_exact pkg Hn).
    apply list_elem_of_In, in_map, list_elem_of_In, Hin.
  - destruct Hpath as [-> | [rest ->]].
    + simpl. by rewrite String.eqb_refl.
    + by apply matchesExternal_subpath.
Qed.

Lemma external_package_covers_subpaths_witness :
  onResolveHook Scenario.findPnpApi "/project" defaultExtensions defaultOnResolve
    (setup {| opt_external := Some ["react"; "lodash"]; opt_platform := None;
              opt_conditions := None |})
    (Scenario.request "lodash/fp/get" "require-call")
  = ([], Returns (Some external_only)).
Proof.
  apply (external_package_covers_subpaths Scenario.findPnpApi "/project"
           defaultExtensions defaultOnResolve
           {| opt_external := Some ["react"; "lodash"]; opt_platform := None;
              opt_conditions := None |}
           (Scenario.request "lodash/fp/get" "require-call") "lodash").
  - right. left.
  - apply isBare_spec. reflexivity.
  - apply no_star_by_indexOf. reflexivity.
  - right. exists "fp/get". reflexivity.
Defined.

(** X17. Without externals in the build options (the option is absent or
    the list is empty) no request is short-circuited: the first thing the
    hook does for every request is the call of [findPnpApi] on the
    effective importer. *)
Theorem no_externals_no_short_circuit
    (findPnpApi : string -> Completion (option PnpApi))
    (baseDir : string) (pluginExtensions : list string)
    (onResolve : OnResolveArgs -> OnResolveParams -> Completion (option OnResolveResult))
    (initialOptions : BuildOptions) (args : OnResolveArgs) :
  opt_external initialOptions = None ∨ opt_external initialOptions = Some [] →
  ∃ log,
    calls (onResolveHook findPnpApi baseDir pluginExtensions onResolve
             (setup initialOptions) args)
    = CallFindPnpApi (effectiveImporter baseDir args) :: log.
Proof.
  intros Hopt.
  assert (isExternal (a_path args) (externals (setup initialOptions)) = false)
    as He by (simpl; by destruct Hopt as [-> | ->]).
  destruct (findPnpApi (effectiveImporter baseDir args)) as [[pnpApi|]|e] eqn:Hf.
  - rewrite (onResolveHook_resolve findPnpApi baseDir pluginExtensions
               (setup initialOptions) onResolve args pnpApi He Hf).
    destruct (resolveParams _ _ _ _ _) as [log [params|e]]; by eexists.
  - rewrite onResolveHook_delegate by done. by eexists.
  - unfold onResolveHook, bind, call. rewrite He, Hf. by eexists.
Qed.

Lemma no_externals_no_short_circuit_witness :
  ∃ log,
    calls (Failing.hook defaultOnResolve
             (Failing.request "/broken" "./ok" "import-statement"))
    = CallFindPnpApi
        (effectiveImporter "/cwd"
           (Failing.request "/broken" "./ok" "import-statement")) :: log.
Proof.
  apply (no_externals_no_short_circuit Failing.findPnpApi "/cwd"
           defaultExtensions defaultOnResolve Failing.options
           (Failing.request "/broken" "./ok" "import-statement")).
  left. reflexivity.
Defined.

(** X18. A raw external that ends with its only ["*"] is a prefix test, and
    one that starts with a ["*"] is a suffix test on everything after that
    ["*"]; so the external ["*"] makes every specifier external. *)
Theorem edge_wildcards (path part : string) :
  (¬ has_star part →
   (isExternal path (parseExternals [part +:+ "*"]) = true
    ↔ starts_with path part))
  ∧ (isExternal path (parseExternals ["*" +:+ part]) = true
     ↔ ends_with path part)
  ∧ isExternal path (parseExternals ["*"]) = true.
Proof.
  assert (∀ prefix suffix, ¬ has_star prefix →
            parseExternals [prefix +:+ "*" +:+ suffix] = [Wildcard prefix suffix])
    as Hparse.
  { intros prefix suffix Hn. cbv [parseExternals map].
    by rewrite parseExternal_wildcard. }
  split; [| split].
  - intros Hn. change (part +:+ "*") with (part +:+ "*" +:+ "").
    rewrite (Hparse part "" Hn), isExternal_singleton.
    rewrite matchesExternal_wildcard_middle. unfold starts_with.
    split; intros [t ->]; exists t; by rewrite append_empty_r.
  - change ("*" +:+ part) with ("" +:+ "*" +:+ part).
    rewrite (Hparse "" part has_star_empty), isExternal_singleton.
    by rewrite matchesExternal_wildcard_middle.
  - change "*" with ("" +:+ "*" +:+ "") at 1.
    rewrite (Hparse "" "" has_star_empty), isExternal_singleton.
    apply matchesExternal_wildcard_middle. exists path.
    simpl. by rewrite append_empty_r.
Qed.

Lemma edge_wildcards_witness :
  isExternal "@aws-sdk/client-s3" (parseExternals ["@aws-sdk/" +:+ "*"]) = true
  ↔ starts_with "@aws-sdk/client-s3" "@aws-sdk/".
Proof.
  apply (proj1 (edge_wildcards "@aws-sdk/client-s3" "@aws-sdk/")).
  apply no_star_by_indexOf. reflexivity.
Defined.
